(** * Questionnaire scanning: checkbox detection, matching and scale scoring

    A shallow embedding of the detection core of the questionnaire reader
    ([detection_cases.py], [reperage.py], [detect0.py]) and of the merge of
    its records with the titles of the template ([fusionner_resultats.py]),
    together with the properties stated about them.

    Conventions of the embedding.
    - Pixel coordinates, sizes and areas are Python [int]s: [Z].
    - Python [float]s are read as exact rationals ([Q]) where the code
      compares a quotient of two pixel counts (or a half-integer) with a
      short decimal constant: at image sizes such a comparison has the same
      outcome in binary floating point and in exact arithmetic.
    - Two tests of [reperage.py] depend on rounding and are not read that
      way.  The rows and columns of the grey rectangle are compared with
      [(mediane + 255) / 2], computed on binary64 values: these are [float]
      here, with the IEEE 754 operations.  The mean of a window of twenty
      quotients is compared with 0.15 after a rounded sum whose order numpy
      chooses: the comparison is exact away from the threshold, and within
      [marge] of it its outcome is read off the page like the result of an
      OpenCV call.
    - The OpenCV calls are not part of this repository.  What they return on
      a page (contours, connected components, thresholded regions) is the
      input of the embedded functions.
    - A Python exception, the error that OpenCV raises on an array without
      pixels included, is a value of [resultat]. *)

From Stdlib Require Import ZArith QArith Lia List Sorted PrimFloat.
From stdpp Require Import gmap strings list pretty.

Local Open Scope Z_scope.

(** ** Python numerics *)

(** [int(q)] on a float: truncation towards zero. *)
Definition int_Q (q : Q) : Z := Z.quot (Qnum q) (Z.pos (Qden q)).

(** [a < b] on floats, as a boolean. *)
Definition Qlt_bool (a b : Q) : bool := negb (Qle_bool b a).

(** Smallest and largest element of [d :: l]. *)
Definition liste_min (d : Z) (l : list Z) : Z := fold_left Z.min l d.
Definition liste_max (d : Z) (l : list Z) : Z := fold_left Z.max l d.

(** [min(l)] of a non-empty list, and [l.index(v)] for an element [v] of
    [l]: the first position that holds it. *)
Definition py_min (l : list Z) : Z :=
  match l with
  | [] => 0
  | d :: l' => liste_min d l'
  end.

Fixpoint py_index (v : Z) (l : list Z) : nat :=
  match l with
  | [] => 0%nat
  | a :: l' => if a =? v then 0%nat else S (py_index v l')
  end.

(** [np.mean] of a slice. *)
Definition moyenne (l : list Q) : Q :=
  (fold_right Qplus 0 l / inject_Z (Z.of_nat (length l)))%Q.

(** The slice [l[debut:fin]]. *)
Definition tranche {A : Type} (l : list A) (debut fin : nat) : list A :=
  firstn (fin - debut) (skipn debut l).

(** Where an index [i] of a slice falls in an array of [n] elements (a
    negative index counts from the end), and the number of elements of
    [t[a:b]]. *)
Definition indice_tranche (n i : Z) : Z :=
  if i <? 0 then Z.max (i + n) 0 else Z.min i n.

Definition longueur_tranche (n a b : Z) : Z :=
  Z.max 0 (indice_tranche n b - indice_tranche n a).

(** Case analysis on the integer tests of a goal. *)
Ltac cas_des_tests :=
  repeat match goal with
         | |- context [?a <? ?b] => destruct (Z.ltb_spec a b)
         | |- context [?a =? ?b] => destruct (Z.eqb_spec a b)
         end.

(** ** Python exceptions *)

Inductive Exception : Type :=
| ZeroDivisionError
| Cv2Error.

Inductive resultat (A : Type) : Type :=
| Ok (a : A)
| Leve (e : Exception).
Arguments Ok {A} a.
Arguments Leve {A} e.

Global Instance resultat_bind : MBind resultat := fun A B k m =>
  match m with
  | Ok a => k a
  | Leve e => Leve e
  end.

(** The body of a [for] loop that builds a list, run on each element in
    order; the first exception leaves the loop. *)
Fixpoint pour_chaque {A B : Type} (f : A -> resultat B) (l : list A) : resultat (list B) :=
  match l with
  | [] => Ok []
  | a :: l' => b ← f a; bs ← pour_chaque f l'; Ok (b :: bs)
  end.

(** ** Python [sorted]

    [sorted] is stable: elements whose keys compare equal keep their input
    order, also with [reverse=True].  [le a b] says that [a] may stay in
    front of [b]. *)
Section Tri.
Context {A : Type} (le : A -> A -> bool).

Fixpoint inserer (a : A) (l : list A) : list A :=
  match l with
  | [] => [a]
  | b :: l' => if le a b then a :: b :: l' else b :: inserer a l'
  end.

Fixpoint sorted (l : list A) : list A :=
  match l with
  | [] => []
  | a :: l' => inserer a (sorted l')
  end.
End Tri.

(** * detection_cases.py *)
Module DetectionCases.

(** A detected box: the dict with keys [x], [y], [w], [h], [aire].  (The
    source also stores ['ratio'], the width/height quotient rounded to two
    decimals; no later stage reads it and it is left out.) *)
Record Case : Type := {
  x : Z;
  y : Z;
  w : Z;
  h : Z;
  aire : Z
}.

(** A contour returned by [cv2.findContours]: its points, and the polygon
    [cv2.approxPolyDP] approximates it by. *)
Record Contour : Type := {
  points : list (Z * Z);
  approx : list (Z * Z)
}.

(** [cv2.boundingRect]: the upright rectangle of the pixels of the contour,
    [(x, y, w, h)] with [w = xmax - xmin + 1]. *)
Definition boundingRect (cnt : list (Z * Z)) : Z * Z * Z * Z :=
  match cnt with
  | [] => (0, 0, 0, 0)
  | (px, py) :: reste =>
      let xmin := liste_min px (map fst reste) in
      let xmax := liste_max px (map fst reste) in
      let ymin := liste_min py (map snd reste) in
      let ymax := liste_max py (map snd reste) in
      (xmin, ymin, xmax - xmin + 1, ymax - ymin + 1)
  end.

(** [cv2.contourArea]: half the absolute value of the shoelace sum over the
    closed polygon. *)
Fixpoint somme_lacet (prev : Z * Z) (l : list (Z * Z)) : Z :=
  match l with
  | [] => 0
  | p :: l' => fst prev * snd p - snd prev * fst p + somme_lacet p l'
  end.

Definition contourArea (cnt : list (Z * Z)) : Q :=
  match cnt with
  | [] => 0%Q
  | p0 :: _ => (inject_Z (Z.abs (somme_lacet (List.last cnt p0) cnt)) * 0.5)%Q
  end.

(** The test of one contour in [detecter_cases]. *)
Definition garder_contour (aire_min aire_max : Z) (ratio_min ratio_max : Q)
    (cnt : Contour) : bool :=
  if (length (approx cnt) =? 4)%nat then
    let '(_, _, bw, bh) := boundingRect (points cnt) in
    let aire := contourArea (points cnt) in
    let ratio := if 0 <? bh then (inject_Z bw / inject_Z bh)%Q else 0%Q in
    Qle_bool (inject_Z aire_min) aire && Qle_bool aire (inject_Z aire_max)
    && Qle_bool ratio_min ratio && Qle_bool ratio ratio_max
  else false.

Definition case_de_contour (cnt : Contour) : Case :=
  let '(bx, by_, bw, bh) := boundingRect (points cnt) in
  {| x := bx; y := by_; w := bw; h := bh; aire := int_Q (contourArea (points cnt)) |}.

Definition detecter_cases (contours : list Contour)
    (aire_min aire_max : Z) (ratio_min ratio_max : Q) : list Case :=
  map case_de_contour
      (List.filter (garder_contour aire_min aire_max ratio_min ratio_max) contours).

(** The area of the bounding rectangle of a contour, [w * h]: the quantity
    the written description of the detection names.  [detecter_cases] does
    not compute it. *)
Definition aire_rectangle_englobant (cnt : Contour) : Z :=
  let '(_, _, bw, bh) := boundingRect (points cnt) in bw * bh.

(** Centre of a box, [x + w / 2] and [y + h / 2]. *)
Definition centre_x (c : Case) : Q := (inject_Z (x c) + inject_Z (w c) / 2)%Q.
Definition centre_y (c : Case) : Q := (inject_Z (y c) + inject_Z (h c) / 2)%Q.

(** The square of [distance] in [dedupliquer_cases]. *)
Definition distance2 (c1 c2 : Case) : Q :=
  ((centre_x c1 - centre_x c2) * (centre_x c1 - centre_x c2)
   + (centre_y c1 - centre_y c2) * (centre_y c1 - centre_y c2))%Q.

(** [distance < distance_min], where [distance] is the square root of
    [distance2]: the root is below [distance_min] exactly when
    [distance_min] is positive and the square is below its square. *)
Definition distance_inferieure (c1 c2 : Case) (distance_min : Z) : bool :=
  (0 <? distance_min)
  && Qlt_bool (distance2 c1 c2) (inject_Z (distance_min * distance_min)).

Definition aire_decroissante (a b : Case) : bool := aire b <=? aire a.

(** One turn of the outer loop of [dedupliquer_cases]: the inner loop sets
    [est_doublon] as soon as an accepted box is too close. *)
Definition dedupliquer_pas (distance_min : Z) (cases_uniques : list Case)
    (case : Case) : list Case :=
  let est_doublon :=
    existsb (fun case_unique => distance_inferieure case case_unique distance_min)
            cases_uniques in
  if est_doublon then cases_uniques else cases_uniques ++ [case].

Definition dedupliquer_cases (cases : list Case) (distance_min : Z) : list Case :=
  match cases with
  | [] => []
  | _ =>
      let cases_triees := sorted aire_decroissante cases in
      fold_left (dedupliquer_pas distance_min) cases_triees []
  end.

(** Key [(c['y'], c['x'])], compared as Python compares tuples. *)
Definition ordre_yx (a b : Case) : bool :=
  (y a <? y b) || ((y a =? y b) && (x a <=? x b)).

Definition ordre_x (a b : Case) : bool := x a <=? x b.

(** The [for] loop of [regrouper_par_lignes] and the lines after it. *)
Fixpoint regrouper_boucle (tolerance_y : Z) (reste : list Case)
    (ligne_courante : list Case) (y_reference : Z) (lignes : list (list Case))
    : list (list Case) :=
  match reste with
  | [] =>
      match ligne_courante with
      | [] => lignes
      | _ => lignes ++ [sorted ordre_x ligne_courante]
      end
  | case :: reste' =>
      if Z.abs (y case - y_reference) <=? tolerance_y then
        regrouper_boucle tolerance_y reste' (ligne_courante ++ [case]) y_reference lignes
      else
        regrouper_boucle tolerance_y reste' [case] (y case)
                         (lignes ++ [sorted ordre_x ligne_courante])
  end.

Definition regrouper_par_lignes (cases : list Case) (tolerance_y : Z)
    : list (list Case) :=
  match sorted ordre_yx cases with
  | [] => []
  | premiere :: reste => regrouper_boucle tolerance_y reste [premiere] (y premiere) []
  end.

(** The default values of the keyword arguments. *)
Definition AIRE_MIN : Z := 1000.
Definition AIRE_MAX : Z := 2500.
Definition RATIO_MIN : Q := 0.85.
Definition RATIO_MAX : Q := 1.4.
Definition DISTANCE_MIN : Z := 10.
Definition TOLERANCE_Y : Z := 50.

Definition detecter_cases_completes (contours : list Contour) : list Case :=
  let cases_brutes := detecter_cases contours AIRE_MIN AIRE_MAX RATIO_MIN RATIO_MAX in
  let cases_uniques := dedupliquer_cases cases_brutes DISTANCE_MIN in
  sorted ordre_yx cases_uniques.

End DetectionCases.

(** * reperage.py *)
Module Reperage.

(** [projection / projection.max()], done only when the maximum is
    positive.  [projection] holds, per column, the sum of the binarised band
    around the scale line; a page has at least one column. *)
Definition normaliser (projection : list Z) : list Q :=
  let maxi := liste_max 0 projection in
  if 0 <? maxi then map (fun v => (inject_Z v / inject_Z maxi)%Q) projection
  else map inject_Z projection.

Definition seuil : Q := 0.15.
Definition largeur_min : nat := 20.

(** [np.mean(projection[debut:fin]) > seuil] on a window of [largeur_min]
    columns.  The twenty quotients lie between 0 and 1; each is rounded to
    binary64, numpy adds them in an order of its own, rounding each partial
    sum, and rounds the division by 20: the mean it compares differs from
    the exact one by less than 2^-43, far less than [marge].  So the test
    has the exact outcome when the exact mean is not within [marge] of the
    threshold; when it is, the outcome is the one numpy computes on that
    window, [arrondi debut]. *)
Definition marge : Q := 1 # 1000000000.

Definition fenetre_dense (arrondi : nat -> bool) (projection : list Q)
    (debut fin : nat) : bool :=
  let m := moyenne (tranche projection debut fin) in
  if Qlt_bool (seuil + marge) m then true
  else if Qlt_bool m (seuil - marge) then false
  else arrondi debut.

(** The two searches of [trouver_bords_ligne_echelle]: the first [x] of the
    range whose window has a mean density above [seuil]. *)
Definition chercher_bord_gauche (arrondi : nat -> bool) (projection : list Q)
    : option nat :=
  List.find
    (fun x => fenetre_dense arrondi projection x (x + largeur_min))
    (seq 0 (length projection - largeur_min)).

(** [range(len(projection)-1, largeur_min, -1)] *)
Definition chercher_bord_droit (arrondi : nat -> bool) (projection : list Q)
    : option nat :=
  List.find
    (fun x => fenetre_dense arrondi projection (x - largeur_min) x)
    (rev (seq (S largeur_min) (length projection - S largeur_min))).

(** Truth value of [None] or an [int]: [None] and [0] are false. *)
Definition vrai (v : option nat) : bool :=
  match v with
  | None => false
  | Some n => negb (n =? 0)%nat
  end.

Definition trouver_bords_ligne_echelle (arrondi : nat -> bool) (colonnes : list Z)
    : option (nat * nat) :=
  let projection := normaliser colonnes in
  let x_gauche := chercher_bord_gauche arrondi projection in
  let x_droite := chercher_bord_droit arrondi projection in
  if vrai x_gauche && vrai x_droite then
    match x_gauche, x_droite with
    | Some g, Some d => Some (g, d)
    | _, _ => None
    end
  else None.

(** ** [trouver_ligne_echelle]

    [binary] is the thresholded page, one list per row, [true] for a white
    (content) pixel; [w] is its number of columns. *)

(** [np.sum(bande, axis=0) > 0] at column [x], where [bande] is
    [binary[max(0, y-5):min(h, y+5), :]]. *)
Definition proj_ligne (binary : list (list bool)) (y x : nat) : bool :=
  existsb (fun ligne => nth x ligne false)
          (tranche binary (y - 5) (Nat.min (length binary) (y + 5))).

(** One turn of the loop over the columns; the state is
    [(debut, max_seg, x1_max)]. *)
Definition segment_pas (proj : nat -> bool) (etat : option nat * nat * nat) (x : nat)
    : option nat * nat * nat :=
  let '(debut, max_seg, x1_max) := etat in
  if proj x then
    match debut with
    | None => (Some x, max_seg, x1_max)
    | Some _ => (debut, max_seg, x1_max)
    end
  else
    match debut with
    | Some d =>
        let longueur := (x - d)%nat in
        if (max_seg <? longueur)%nat then (None, longueur, d)
        else (None, max_seg, x1_max)
    | None => (None, max_seg, x1_max)
    end.

(** The loop over the columns of one row and the test after it:
    [(max_seg, x1_max)]. *)
Definition plus_long_segment (proj : nat -> bool) (w : nat) : nat * nat :=
  let '(debut, max_seg, x1_max) :=
    fold_left (segment_pas proj) (seq 0 w) (None, 0%nat, 0%nat) in
  match debut with
  | Some d =>
      let longueur := (w - d)%nat in
      if (max_seg <? longueur)%nat then (longueur, d) else (max_seg, x1_max)
  | None => (max_seg, x1_max)
  end.

(** One turn of the loop over the rows; the state is [(best, max_len)]. *)
Definition ligne_pas (binary : list (list bool)) (w : nat)
    (etat : option (nat * nat * nat * nat) * nat) (y : nat)
    : option (nat * nat * nat * nat) * nat :=
  let '(best, max_len) := etat in
  let '(max_seg, x1_max) := plus_long_segment (proj_ligne binary y) w in
  if (max_len <? max_seg)%nat
  then (Some (x1_max, y, (x1_max + max_seg)%nat, y), max_seg)
  else (best, max_len).

Definition trouver_ligne_echelle (binary : list (list bool)) (w : nat)
    : option (nat * nat * nat * nat) :=
  fst (fold_left (ligne_pas binary w) (seq 0 (length binary)) (None, 0%nat)).

(** ** [trouver_rectangle_gris] *)

(** [np.median] of an array of binary64 values: the middle value of the
    sorted array, or the mean of the two middle values, [(a + b) / 2] with
    the sum rounded; [nan] for an empty array. *)
Definition mediane (l : list float) : float :=
  let t := sorted PrimFloat.leb l in
  let n := length t in
  if Nat.even n
  then ((nth (n / 2 - 1) t nan + nth (n / 2) t nan) / 2)%float
  else nth (n / 2) t nan.

(** [(mediane + 255) / 2], in binary64 as the code computes it. *)
Definition seuil_gris (valeurs : list float) : float :=
  ((mediane valeurs + 255) / 2)%float.

(** One turn of the loop over the rows.  The state is
    [(zone, longueur_max, meilleur_debut, meilleur_fin)], where [zone] is
    [Some y_debut] while [dans_zone] holds ([y_debut] is read only then). *)
Definition zone_pas (seuil : float)
    (etat : option nat * nat * option nat * option nat) (yi : nat * float)
    : option nat * nat * option nat * option nat :=
  let '(zone, longueur_max, meilleur_debut, meilleur_fin) := etat in
  if PrimFloat.ltb (snd yi) seuil then
    match zone with
    | None => (Some (fst yi), longueur_max, meilleur_debut, meilleur_fin)
    | Some _ => (zone, longueur_max, meilleur_debut, meilleur_fin)
    end
  else
    match zone with
    | Some y_debut =>
        let longueur := (fst yi - y_debut)%nat in
        if (longueur_max <? longueur)%nat
        then (None, longueur, Some y_debut, Some (fst yi))
        else (None, longueur_max, meilleur_debut, meilleur_fin)
    | None => (None, longueur_max, meilleur_debut, meilleur_fin)
    end.

(** [h] and [w] are the shape of the page, [intensites] the mean of each
    row of the normalised lower-right zone, as [np.mean] returns it.  The test made when the zone
    reaches the last row moves [meilleur_debut] and [meilleur_fin] and
    leaves [longueur_max] as it is. *)
Definition trouver_rectangle_gris (h w : Z) (intensites : list float)
    : option (Z * Z * Z * Z) :=
  let moitie_basse_y := int_Q (inject_Z h * 0.5) in
  let seuil := seuil_gris intensites in
  let '(zone, longueur_max, meilleur_debut, meilleur_fin) :=
    fold_left (zone_pas seuil)
              (combine (seq 0 (length intensites)) intensites)
              (None, 0%nat, None, None) in
  let '(meilleur_debut, meilleur_fin) :=
    match zone with
    | Some y_debut =>
        let longueur := (length intensites - y_debut)%nat in
        if (longueur_max <? longueur)%nat
        then (Some y_debut, Some (length intensites))
        else (meilleur_debut, meilleur_fin)
    | None => (meilleur_debut, meilleur_fin)
    end in
  match meilleur_debut, meilleur_fin with
  | Some debut, Some fin =>
      if (longueur_max <? 200)%nat then None
      else
        let y_haut := Z.of_nat debut + moitie_basse_y in
        let h_rect := Z.of_nat fin - Z.of_nat debut in
        Some (0, y_haut, w, h_rect)
  | _, _ => None
  end.

(** ** [trouver_bords_verticaux_rectangle] *)

Definition min_gris : nat := 200.

(** [np.sum(valeurs < seuil)] *)
Definition nb_sombres (seuil : float) (valeurs : list float) : nat :=
  length (List.filter (fun v => PrimFloat.ltb v seuil) valeurs).

(** [projection[x] < seuil] and more than 80% of the window under the
    threshold. *)
Definition zone_grise (seuil : float) (projection : list float)
    (x debut fin : nat) : bool :=
  PrimFloat.ltb (nth x projection 0%float) seuil
  && Qlt_bool 0.8 (inject_Z (Z.of_nat (nb_sombres seuil (tranche projection debut fin)))
                   / inject_Z (Z.of_nat min_gris)).

Definition chercher_bord_gauche_rectangle (projection : list float) : option nat :=
  List.find
    (fun x => zone_grise (seuil_gris projection) projection x x (x + min_gris))
    (seq 0 (length projection - min_gris)).

Definition chercher_bord_droit_rectangle (projection : list float) : option nat :=
  List.find
    (fun x => zone_grise (seuil_gris projection) projection x (x - min_gris) x)
    (rev (seq (S min_gris) (length projection - S min_gris))).

(** [projection_bande y0 y1] is the mean of each column of the normalised
    band [gray[y0:y1, :]], as [np.mean] returns it. *)
Definition trouver_bords_verticaux_rectangle (projection_bande : Z -> Z -> list float)
    (rect : option (Z * Z * Z * Z)) : option (nat * nat) :=
  match rect with
  | None => None
  | Some (_, y_haut, _, h_rect) =>
      let y_mid := y_haut + h_rect / 2 in
      let band_h := h_rect / 4 in
      let projection :=
        projection_bande (y_mid - band_h / 2) (y_mid + band_h / 2) in
      let x_gauche := chercher_bord_gauche_rectangle projection in
      let x_droite := chercher_bord_droit_rectangle projection in
      if vrai x_gauche && vrai x_droite then
        match x_gauche, x_droite with
        | Some g, Some d => Some (g, d)
        | _, _ => None
        end
      else None
  end.

(** ** [detecter_reperes] *)

(** What OpenCV and numpy read off a page for the search of the six
    landmarks: the page cleaned for the scale (thresholded, with its width,
    the column sums of a band and the outcome of the window test where it
    hangs on rounding), and the page cleaned for the rectangle (its shape,
    the row means of its lower-right zone, the column means of a band). *)
Record Scan : Type := {
  binaire_echelle : list (list bool);
  largeur_echelle : nat;
  colonnes_echelle : Z -> list Z;
  arrondi_echelle : Z -> nat -> bool;
  forme : Z * Z;
  intensites_zone : list float;
  projection_rectangle : Z -> Z -> list float
}.

(** The dict returned by [detecter_reperes]: six points, then the seven
    entries kept for debugging. *)
Record Reperes : Type := {
  echelle_gauche : Z * Z;
  echelle_droite : Z * Z;
  rect_haut_gauche : Z * Z;
  rect_haut_droite : Z * Z;
  rect_bas_gauche : Z * Z;
  rect_bas_droite : Z * Z;
  ligne_echelle_y : Z;
  echelle_x_gauche : Z;
  echelle_x_droite : Z;
  rect_y_haut : Z;
  rect_y_bas : Z;
  rect_x_gauche : Z;
  rect_x_droite : Z
}.

Definition detecter_reperes (scan : Scan) : option Reperes :=
  match trouver_ligne_echelle (binaire_echelle scan) (largeur_echelle scan) with
  | None => None
  | Some (_, y_ligne, _, _) =>
      let y_echelle := Z.of_nat y_ligne in
      match trouver_bords_ligne_echelle (arrondi_echelle scan y_echelle)
                                        (colonnes_echelle scan y_echelle) with
      | None => None
      | Some (x_g, x_d) =>
          let x_g_echelle := Z.of_nat x_g in
          let x_d_echelle := Z.of_nat x_d in
          let rect_gris :=
            trouver_rectangle_gris (fst (forme scan)) (snd (forme scan))
                                   (intensites_zone scan) in
          match rect_gris with
          | None => None
          | Some (_, rect_y, _, rect_h) =>
              match trouver_bords_verticaux_rectangle
                      (projection_rectangle scan) rect_gris with
              | None => None
              | Some (g, d) =>
                  let x_g_rect := Z.of_nat g in
                  let x_d_rect := Z.of_nat d in
                  let y_rect_haut := rect_y in
                  let y_rect_bas := rect_y + rect_h in
                  Some {| echelle_gauche := (x_g_echelle, y_echelle);
                          echelle_droite := (x_d_echelle, y_echelle);
                          rect_haut_gauche := (x_g_rect, y_rect_haut);
                          rect_haut_droite := (x_d_rect, y_rect_haut);
                          rect_bas_gauche := (x_g_rect, y_rect_bas);
                          rect_bas_droite := (x_d_rect, y_rect_bas);
                          ligne_echelle_y := y_echelle;
                          echelle_x_gauche := x_g_echelle;
                          echelle_x_droite := x_d_echelle;
                          rect_y_haut := y_rect_haut;
                          rect_y_bas := y_rect_bas;
                          rect_x_gauche := x_g_rect;
                          rect_x_droite := x_d_rect |}
              end
          end
      end
  end.

(** A page on which the six landmarks are found, and the landmarks. *)
Definition scan_exemple : Scan :=
  {| binaire_echelle := [[false; true; true; false]; [false; false; false; false]];
     largeur_echelle := 4;
     colonnes_echelle := fun _ => repeat 0 30 ++ repeat 1275 60 ++ repeat 0 30;
     arrondi_echelle := fun _ _ => false;
     forme := (1000, 800);
     intensites_zone := repeat 100%float 250 ++ repeat 255%float 250;
     projection_rectangle :=
       fun _ _ => repeat 255%float 20 ++ repeat 100%float 410 ++ repeat 255%float 20 |}.

Definition reperes_exemple : Reperes :=
  {| echelle_gauche := (14, 0); echelle_droite := (106, 0);
     rect_haut_gauche := (20, 500); rect_haut_droite := (429, 500);
     rect_bas_gauche := (20, 750); rect_bas_droite := (429, 750);
     ligne_echelle_y := 0; echelle_x_gauche := 14; echelle_x_droite := 106;
     rect_y_haut := 500; rect_y_bas := 750;
     rect_x_gauche := 20; rect_x_droite := 429 |}.

End Reperage.

(** * detect0.py *)
Module Detect0.
Import DetectionCases Reperage.

Definition TOLERANCE_X : Z := 200.
Definition SEUIL_REMPLISSAGE : Q := 0.5.
Definition MIN_COMPOSANTES : nat := 1.
Definition MARGE_CROP : Z := 250.
Definition MARGE_CROP_HAUT : Z := MARGE_CROP / 2.
Definition MARGE_CROP_BAS : Z := MARGE_CROP.
Definition EPAISSEUR_SUPPRESSION : Z := 20.
Definition HAUTEUR_BANDE : Z := 200.
Definition OFFSET_BANDE : Z := 20.
Definition AIRE_MIN_BLOB : Z := 200.
Definition LARGEUR_MAX_CHIFFRE : Z := 45.

(** [{'x': ..., 'y': ...}] and the scale [{'gauche': ..., 'droite': ...}]. *)
Record Point : Type := { pt_x : Z; pt_y : Z }.
Record Echelle : Type := { gauche : Point; droite : Point }.

(** One row of [cv2.connectedComponentsWithStats], background excluded:
    [stats[i]] and [centroids[i]]. *)
Record Composante : Type := {
  CC_STAT_LEFT : Z;
  CC_STAT_TOP : Z;
  CC_STAT_WIDTH : Z;
  CC_STAT_HEIGHT : Z;
  CC_STAT_AREA : Z;
  centroid : Q * Q
}.

(** The thresholded interior of a box: [np.count_nonzero(binaire)] and the
    areas of its connected components, background excluded. *)
Record Interieur : Type := {
  count_nonzero : Z;
  aires_composantes : list Z
}.

(** What OpenCV and numpy read off one scanned page. *)
Record Image : Type := {
  (** [image.shape[0]] and [image.shape[1]] *)
  hauteur : Z;
  largeur : Z;
  (** [trouver_ligne_echelle] on the cleaned page *)
  ligne_echelle : option (Z * Z * Z * Z);
  (** column sums of the binarised band around a given [y_ligne] *)
  colonnes_bande : Z -> list Z;
  (** outcome of the window test on that band where it hangs on rounding *)
  arrondi_bande : Z -> nat -> bool;
  (** components of the analysis band under a given scale, when the band
      has pixels *)
  composantes_bande : Echelle -> list Composante;
  (** [cv2.findContours] on the binarised page *)
  contours : list Contour;
  (** the region [x_int, y_int, w_int, h_int] thresholded at 180 *)
  interieur : Z -> Z -> Z -> Z -> Interieur
}.

Definition detecter_echelle_seule (image : Image) : option Echelle :=
  match ligne_echelle image with
  | None => None
  | Some (_, y_echelle, _, _) =>
      match trouver_bords_ligne_echelle (arrondi_bande image y_echelle)
                                        (colonnes_bande image y_echelle) with
      | None => None
      | Some (x_gauche, x_droite) =>
          Some {| gauche := {| pt_x := Z.of_nat x_gauche; pt_y := y_echelle |};
                  droite := {| pt_x := Z.of_nat x_droite; pt_y := y_echelle |} |}
      end
  end.

Definition calculer_dx (echelle_template echelle_reponse : option Echelle) : Z :=
  match echelle_template, echelle_reponse with
  | Some t, Some r => pt_x (gauche r) - pt_x (gauche t)
  | _, _ => 0
  end.

(** A retained blob of [coter_echelle]. *)
Record Blob : Type := {
  b_x : Z; b_y : Z; b_w : Z; b_h : Z; b_area : Z; b_cx : Z; b_cy : Z
}.

Definition blob_de_composante (c : Composante) : Blob :=
  {| b_x := CC_STAT_LEFT c; b_y := CC_STAT_TOP c;
     b_w := CC_STAT_WIDTH c; b_h := CC_STAT_HEIGHT c;
     b_area := CC_STAT_AREA c;
     b_cx := int_Q (fst (centroid c)); b_cy := int_Q (snd (centroid c)) |}.

(** [x_gauche_crop + int(score * largeur_graduation)] *)
Definition x_grad (x_gauche_crop : Z) (largeur_graduation : Q) (score : nat) : Z :=
  x_gauche_crop + int_Q (inject_Z (Z.of_nat score) * largeur_graduation).

Definition distances (x_gauche_crop : Z) (largeur_graduation : Q) (cx_absolu : Z)
    : list Z :=
  map (fun score => Z.abs (cx_absolu - x_grad x_gauche_crop largeur_graduation score))
      (seq 0 6).

Definition score_proche (x_gauche_crop : Z) (largeur_graduation : Q) (blob : Blob)
    : nat :=
  let ds := distances x_gauche_crop largeur_graduation (b_cx blob) in
  py_index (py_min ds) ds.

(** One turn of the loop over [blobs_crayonnages]: the score of the blob
    joins [scores_detectes] unless it is there already. *)
Definition ajouter_score (score : Blob -> nat) (scores_detectes : list nat)
    (blob : Blob) : list nat :=
  let s := score blob in
  if existsb (Nat.eqb s) scores_detectes then scores_detectes
  else scores_detectes ++ [s].

(** [cv2.cvtColor] raises on a crop without pixels, and
    [cv2.connectedComponentsWithStats] on a band without pixels: the band
    starts 20 rows under the rows wiped around the scale line, and the crop
    stops at the bottom edge of the page. *)
Definition coter_echelle (image : Image) (echelle : option Echelle)
    : resultat (list nat) :=
  match echelle with
  | None => Ok []
  | Some e =>
      let x_gauche := pt_x (gauche e) in
      let x_droite := pt_x (droite e) in
      let y_echelle := pt_y (gauche e) in
      let largeur_totale := x_droite - x_gauche in
      let largeur_graduation := (inject_Z largeur_totale / 5)%Q in
      let x_crop_min := Z.max 0 (x_gauche - MARGE_CROP) in
      let x_crop_max := Z.min (largeur image) (x_droite + MARGE_CROP) in
      let y_crop_min := Z.max 0 (y_echelle - MARGE_CROP_HAUT) in
      let y_crop_max := Z.min (hauteur image) (y_echelle + MARGE_CROP_BAS) in
      let hauteur_crop := longueur_tranche (hauteur image) y_crop_min y_crop_max in
      let largeur_crop := longueur_tranche (largeur image) x_crop_min x_crop_max in
      let x_gauche_crop := x_gauche - x_crop_min in
      let y_echelle_crop := y_echelle - y_crop_min in
      if (hauteur_crop =? 0) || (largeur_crop =? 0) then Leve Cv2Error
      else
        let y_suppr_max :=
          Z.min hauteur_crop (y_echelle_crop + EPAISSEUR_SUPPRESSION) in
        let y_bande_min := y_suppr_max + OFFSET_BANDE in
        let y_bande_max := Z.min hauteur_crop (y_bande_min + HAUTEUR_BANDE) in
        if longueur_tranche hauteur_crop y_bande_min y_bande_max =? 0
        then Leve Cv2Error
        else
          let blobs_info :=
            map blob_de_composante
                (List.filter (fun c => AIRE_MIN_BLOB <? CC_STAT_AREA c)
                             (composantes_bande image e)) in
          let blobs_crayonnages :=
            List.filter (fun b => LARGEUR_MAX_CHIFFRE <? b_w b) blobs_info in
          let scores_detectes :=
            fold_left (ajouter_score (score_proche x_gauche_crop largeur_graduation))
                      blobs_crayonnages [] in
          Ok (sorted Nat.leb scores_detectes)
  end.

(** A scale that [coter_echelle] can score: it lies in the page, more than
    40 rows above its bottom edge. *)
Definition echelle_lisible (image : Image) (e : Echelle) : Prop :=
  0 <= pt_x (gauche e) < pt_x (droite e) /\ pt_x (droite e) < largeur image
  /\ 0 <= pt_y (gauche e) /\ pt_y (gauche e) + 40 < hauteur image.

(** The result of [analyser_case]: [('noire', ratio_noir)],
    [('traits', nb_grosses_composantes)] or [('vide', None)]. *)
Inductive Analyse : Type :=
| noire (ratio_noir : Q)
| traits (nb_grosses_composantes : nat)
| vide.

(** The interior of a box, a margin of 25% taken off on each side:
    [(x_int, y_int, w_int, h_int)]. *)
Definition zone_interieure (case : Case) : Z * Z * Z * Z :=
  let marge_x := int_Q (inject_Z (w case) * 0.25) in
  let marge_y := int_Q (inject_Z (h case) * 0.25) in
  (x case + marge_x, y case + marge_y,
   w case - 2 * marge_x, h case - 2 * marge_y).

(** An interior without pixels makes the function raise, at the latest at
    the division by its area. *)
Definition analyser_case (image : Image) (case : Case) : resultat Analyse :=
  let '(x_int, y_int, w_int, h_int) := zone_interieure case in
  let binaire := interieur image x_int y_int w_int h_int in
  if w_int * h_int =? 0 then Leve ZeroDivisionError
  else
    let ratio_noir := (inject_Z (count_nonzero binaire) / inject_Z (w_int * h_int))%Q in
    if Qlt_bool SEUIL_REMPLISSAGE ratio_noir then Ok (noire ratio_noir)
    else
      let taille_min := (inject_Z (w_int * h_int) * 0.1)%Q in
      let nb_grosses_composantes :=
        length (List.filter (fun area => Qlt_bool taille_min (inject_Z area))
                            (aires_composantes binaire)) in
      if (MIN_COMPOSANTES <=? nb_grosses_composantes)%nat
      then Ok (traits nb_grosses_composantes)
      else Ok vide.

(** An expected box of the template. *)
Record CaseTemplate : Type := { t_x : Z; t_y : Z; t_w : Z; t_h : Z }.

Record Question : Type := { cases : list CaseTemplate }.

Record TemplatePage : Type := {
  echelle : option Echelle;
  contenu : gmap string Question
}.

(** [abs(case['x'] - x_attendu) < TOLERANCE_X] *)
Definition proche (x_attendu : Z) (case : Case) : bool :=
  Z.abs (x case - x_attendu) <? TOLERANCE_X.

Fixpoint manquantes_boucle (ligne_vides : list Case) (dx : Z) (idx : nat)
    (cases_template : list CaseTemplate) : list nat :=
  match cases_template with
  | [] => []
  | case_tmpl :: reste =>
      let x_attendu := t_x case_tmpl + dx in
      let trouve := existsb (proche x_attendu) ligne_vides in
      if trouve then manquantes_boucle ligne_vides dx (S idx) reste
      else idx :: manquantes_boucle ligne_vides dx (S idx) reste
  end.

Definition trouver_cases_template_manquantes (ligne_vides : list Case)
    (cases_template : list CaseTemplate) (dx : Z) : list nat :=
  match ligne_vides with
  | [] => seq 0 (length cases_template)
  | _ => manquantes_boucle ligne_vides dx 0 cases_template
  end.

Inductive Etat : Type := cochee | vide_.

(** One entry of [reponses_ordonnees]. *)
Record Reponse : Type := {
  index : nat;
  reponse : Etat;
  r_x : Z; r_y : Z; r_w : Z; r_h : Z
}.

(** The body of the loop that fills [reponses_ordonnees]. *)
Definition reponse_ordonnee (ligne_vides : list Case) (dx y_ligne : Z)
    (indices_manquants : list nat) (idx : nat) (case_tmpl : CaseTemplate) : Reponse :=
  if existsb (Nat.eqb idx) indices_manquants then
    {| index := idx; reponse := cochee;
       r_x := t_x case_tmpl + dx; r_y := y_ligne;
       r_w := t_w case_tmpl; r_h := t_h case_tmpl |}
  else
    match List.find (proche (t_x case_tmpl + dx)) ligne_vides with
    | Some case_vide =>
        {| index := idx; reponse := vide_;
           r_x := x case_vide; r_y := y case_vide;
           r_w := w case_vide; r_h := h case_vide |}
    | None =>
        {| index := idx; reponse := vide_;
           r_x := t_x case_tmpl + dx; r_y := y_ligne;
           r_w := t_w case_tmpl; r_h := t_h case_tmpl |}
    end.

Fixpoint reponses_boucle (ligne_vides : list Case) (dx y_ligne : Z)
    (indices_manquants : list nat) (idx : nat) (cases_template : list CaseTemplate)
    : list Reponse :=
  match cases_template with
  | [] => []
  | case_tmpl :: reste =>
      reponse_ordonnee ligne_vides dx y_ligne indices_manquants idx case_tmpl
      :: reponses_boucle ligne_vides dx y_ligne indices_manquants (S idx) reste
  end.

(** What [analyser_page] does for one question: from the row of empty boxes
    and the expected boxes to the ordered answers. *)
Definition reponses_question (ligne_vides : list Case)
    (cases_template : list CaseTemplate) (dx : Z) : list Reponse :=
  let y_ligne :=
    match ligne_vides with
    | [] => match cases_template with
            | [] => 0
            | premiere :: _ => t_y premiere
            end
    | _ => int_Q (inject_Z (fold_right Z.add 0 (map y ligne_vides))
                  / inject_Z (Z.of_nat (length ligne_vides)))
    end in
  let indices_manquants :=
    trouver_cases_template_manquantes ligne_vides cases_template dx in
  reponses_boucle ligne_vides dx y_ligne indices_manquants 0 cases_template.

Definition q_id (num_question : nat) : string :=
  "question_" +:+ pretty num_question.

(** The value stored under a question id: [{'reponses': ...}]. *)
Record QuestionJson : Type := { reponses : list Reponse }.

(** One turn of the loop over the questions of [analyser_page]. *)
Definition analyser_question (lignes_vides : list (list Case))
    (contenu : gmap string Question) (dx : Z)
    (questions_json : gmap string QuestionJson) (num_question : nat)
    : gmap string QuestionJson :=
  match contenu !! q_id num_question with
  | None => questions_json
  | Some question =>
      let ligne_vides :=
        if (num_question <=? length lignes_vides)%nat
        then nth (num_question - 1) lignes_vides []
        else [] in
      <[q_id num_question :=
          {| reponses := reponses_question ligne_vides (cases question) dx |}]>
        questions_json
  end.

Definition analyser_questions (lignes_vides : list (list Case))
    (contenu : gmap string Question) (dx : Z) : gmap string QuestionJson :=
  let nb_questions := Nat.min (length lignes_vides) (size contenu) in
  fold_left (analyser_question lignes_vides contenu dx) (seq 1 nb_questions) ∅.

(** A page record: the error record, or the record of a page read
    through. *)
Inductive PageData : Type :=
| PageErreur (page : nat) (erreur : string)
| PageResultat (page : nat) (decalage_x : Z) (score_echelle : list nat)
               (questions : gmap string QuestionJson).

(** [page.get('questions', {})], as the later stages read a record. *)
Definition questions_de (p : PageData) : gmap string QuestionJson :=
  match p with
  | PageErreur _ _ => ∅
  | PageResultat _ _ _ questions => questions
  end.

Definition est_vide (a : Analyse) : bool :=
  match a with
  | vide => true
  | _ => false
  end.

(** The boxes of the page that [analyser_case] finds empty. *)
Definition cases_vides_de (image : Image) : resultat (list Case) :=
  let cases_detectees := detecter_cases_completes (contours image) in
  analyses ← pour_chaque
               (fun case => a ← analyser_case image case; Ok (case, a))
               cases_detectees;
  Ok (map fst (List.filter (fun ca => est_vide (snd ca)) analyses)).

Definition analyser_page (image : Image) (page_num : nat)
    (template_page : TemplatePage) : resultat PageData :=
  let echelle_reponse := detecter_echelle_seule image in
  let echelle_template := echelle template_page in
  match echelle_reponse with
  | None => Ok (PageErreur page_num "Échelle non détectée")
  | Some _ =>
      let dx := calculer_dx echelle_template echelle_reponse in
      scores_echelle ← coter_echelle image echelle_reponse;
      cases_vides ← cases_vides_de image;
      let lignes_vides := regrouper_par_lignes cases_vides TOLERANCE_Y in
      let questions_json :=
        analyser_questions lignes_vides (contenu template_page) dx in
      Ok (PageResultat page_num dx scores_echelle questions_json)
  end.

(** [enumerate(pages, debut)] *)
Definition enumerate {A : Type} (l : list A) (debut : nat) : list (nat * A) :=
  combine (seq debut (length l)) l.

(** The loop of [main] over the pages of the scanned file. *)
Definition main_pages (template_page : TemplatePage) (pages : list Image)
    : resultat (list PageData) :=
  pour_chaque
    (fun np => analyser_page (snd np) (fst np) template_page)
    (enumerate pages 1).

(** A page and a template to run the functions on: a page of 1200 rows
    and 800 columns, a scale line on row 900 from column 30 to column 89,
    three square contours of 40 pixels (all found empty) on one row, and a
    question with four expected boxes. *)
Definition page_exemple : Image :=
  {| hauteur := 1200;
     largeur := 800;
     ligne_echelle := Some (14, 900, 106, 900);
     colonnes_bande := fun _ => repeat 0 30 ++ repeat 1275 60 ++ repeat 0 710;
     arrondi_bande := fun _ _ => false;
     composantes_bande := fun _ => [];
     contours :=
       [ {| points := [(114, 1000); (114, 1039); (153, 1039); (153, 1000)];
            approx := [(114, 1000); (114, 1039); (153, 1039); (153, 1000)] |};
         {| points := [(514, 1002); (514, 1041); (553, 1041); (553, 1002)];
            approx := [(514, 1002); (514, 1041); (553, 1041); (553, 1002)] |};
         {| points := [(714, 1001); (714, 1040); (753, 1040); (753, 1001)];
            approx := [(714, 1001); (714, 1040); (753, 1040); (753, 1001)] |} ];
     interieur := fun _ _ _ _ => {| count_nonzero := 0; aires_composantes := [] |} |}.

Definition question_exemple : Question :=
  {| cases := [ {| t_x := 100; t_y := 1000; t_w := 40; t_h := 40 |};
                {| t_x := 300; t_y := 1000; t_w := 40; t_h := 40 |};
                {| t_x := 500; t_y := 1000; t_w := 40; t_h := 40 |};
                {| t_x := 700; t_y := 1000; t_w := 40; t_h := 40 |} ] |}.

Definition template_exemple : TemplatePage :=
  {| echelle := Some {| gauche := {| pt_x := 0; pt_y := 900 |};
                        droite := {| pt_x := 92; pt_y := 900 |} |};
     contenu := {[ "question_1" := question_exemple ]} |}.

(** A page on which no scale line is found, and the page of the example
    cut 30 rows under its scale line. *)
Definition page_sans_echelle : Image :=
  {| hauteur := 1200;
     largeur := 800;
     ligne_echelle := None;
     colonnes_bande := fun _ => [];
     arrondi_bande := fun _ _ => false;
     composantes_bande := fun _ => [];
     contours := [];
     interieur := fun _ _ _ _ => {| count_nonzero := 0; aires_composantes := [] |} |}.

Definition page_coupee : Image :=
  {| hauteur := 930;
     largeur := 800;
     ligne_echelle := ligne_echelle page_exemple;
     colonnes_bande := colonnes_bande page_exemple;
     arrondi_bande := arrondi_bande page_exemple;
     composantes_bande := composantes_bande page_exemple;
     contours := [];
     interieur := interieur page_exemple |}.

(** The earlier classifier kept beside [analyser_case]: every connected
    component counts, whatever its area. *)
Definition Xanalyser_case (image : Image) (case : Case) : resultat Analyse :=
  let '(x_int, y_int, w_int, h_int) := zone_interieure case in
  let binaire := interieur image x_int y_int w_int h_int in
  if w_int * h_int =? 0 then Leve ZeroDivisionError
  else
    let ratio_noir := (inject_Z (count_nonzero binaire) / inject_Z (w_int * h_int))%Q in
    if Qlt_bool SEUIL_REMPLISSAGE ratio_noir then Ok (noire ratio_noir)
    else
      let nb_objets := length (aires_composantes binaire) in
      if (MIN_COMPOSANTES <=? nb_objets)%nat then Ok (traits nb_objets)
      else Ok vide.



End Detect0.

(** * fusionner_resultats.py *)
Module FusionnerResultats.
Import Detect0.

(** The template as this script reads it: the titles of a question and of
    its boxes, each of them optional. *)
Record CaseTitree : Type := { case_titre : option string }.

Record QuestionTitree : Type := {
  question_titre : option string;
  question_cases : list CaseTitree
}.

(** [{'titre': ..., 'cochee': ...}] *)
Record ReponseFusion : Type := { rf_titre : string; rf_cochee : nat }.

(** [{'titre': ..., 'reponses': [...]}] *)
Record QuestionFusion : Type := {
  qf_titre : string;
  qf_reponses : list ReponseFusion
}.

(** [{'page': ..., 'globale': ..., 'questions': {...}}] *)
Record PageFusion : Type := {
  pf_page : nat;
  pf_globale : option Q;
  pf_questions : gmap string QuestionFusion
}.

(** [page_result['page']] and [page_result.get('score_echelle', [])] *)
Definition page_de (p : PageData) : nat :=
  match p with
  | PageErreur page _ => page
  | PageResultat page _ _ _ => page
  end.

Definition score_echelle_de (p : PageData) : list nat :=
  match p with
  | PageErreur _ _ => []
  | PageResultat _ _ score_echelle _ => score_echelle
  end.

(** [sum(score_echelle) / len(score_echelle)], or [None] without score. *)
Definition globale_de (score_echelle : list nat) : option Q :=
  match score_echelle with
  | [] => None
  | _ => Some (inject_Z (Z.of_nat (fold_right Nat.add 0%nat score_echelle))
               / inject_Z (Z.of_nat (length score_echelle)))%Q
  end.

(** The title of answer [idx]: the one of the template when the template
    has the box and the box a title, ['Option idx+1'] otherwise. *)
Definition titre_case (cases_template : list CaseTitree) (idx : nat) : string :=
  let defaut := "Option " +:+ pretty (idx + 1)%nat in
  match cases_template !! idx with
  | Some case_template => default defaut (case_titre case_template)
  | None => defaut
  end.

Definition fusionner_reponse (template_question : QuestionTitree) (r : Reponse)
    : ReponseFusion :=
  {| rf_titre := titre_case (question_cases template_question) (index r);
     rf_cochee := match reponse r with cochee => 1%nat | vide_ => 0%nat end |}.

(** The questions of a page that the template knows. *)
Definition fusionner_question (contenu : gmap string QuestionTitree)
    (q_id : string) (q_result : QuestionJson) : option QuestionFusion :=
  match contenu !! q_id with
  | Some template_question =>
      Some {| qf_titre := default "" (question_titre template_question);
              qf_reponses :=
                map (fusionner_reponse template_question) (reponses q_result) |}
  | None => None
  end.

Definition fusionner_page (contenu : gmap string QuestionTitree)
    (page_result : PageData) : PageFusion :=
  {| pf_page := page_de page_result;
     pf_globale := globale_de (score_echelle_de page_result);
     pf_questions := map_imap (fusionner_question contenu) (questions_de page_result) |}.

(** The pages of the result file, merged with the first page of the
    template. *)
Definition fusionner_resultats (contenu : gmap string QuestionTitree)
    (pages : list PageData) : list PageFusion :=
  map (fusionner_page contenu) pages.

End FusionnerResultats.

Import DetectionCases Reperage Detect0 FusionnerResultats.

(** * Specification of the row grouping *)

(** The rows before they are sorted by [x]: consecutive pieces of the
    sorted list, each within the tolerance of its first box, the first box
    of the next piece beyond it. *)
Inductive bien_decoupe (tol : Z) : list (list Case) -> Prop :=
| bd_derniere c0 r :
    Forall (fun c => y c0 <= y c <= y c0 + tol) r ->
    bien_decoupe tol [c0 :: r]
| bd_suivante c0 r d0 r' segs :
    Forall (fun c => y c0 <= y c <= y c0 + tol) r ->
    y c0 + tol < y d0 ->
    bien_decoupe tol ((d0 :: r') :: segs) ->
    bien_decoupe tol ((c0 :: r) :: (d0 :: r') :: segs).

(** * Properties *)

(** ** [sorted] *)
Section TriProprietes.
Context {A : Type} (le : A -> A -> bool).

Lemma inserer_Permutation (a : A) (l : list A) : inserer le a l ≡ₚ a :: l.
Proof.
  induction l as [|b l IH]; simpl; [done|].
  destruct (le a b); [done|].
  rewrite IH. apply Permutation_swap.
Qed.

Lemma sorted_Permutation (l : list A) : sorted le l ≡ₚ l.
Proof.
  induction l as [|a l IH]; simpl; [done|].
  by rewrite inserer_Permutation, IH.
Qed.

Lemma sorted_length (l : list A) : length (sorted le l) = length l.
Proof. by rewrite sorted_Permutation. Qed.

Lemma sorted_nil_inv (l : list A) : sorted le l = [] -> l = [].
Proof.
  intros E. apply Permutation_nil_r. rewrite <- E.
  symmetry. apply sorted_Permutation.
Qed.

Hypothesis le_total : forall a b, le a b = false -> le b a = true.
Hypothesis le_trans : forall a b c, le a b = true -> le b c = true -> le a c = true.

Lemma inserer_StronglySorted (a : A) (l : list A) :
  StronglySorted (fun u v => le u v = true) l ->
  StronglySorted (fun u v => le u v = true) (inserer le a l).
Proof.
  induction 1 as [|b l Hl IH Hb]; simpl.
  - repeat constructor.
  - destruct (le a b) eqn:E.
    + constructor; [by constructor|].
      constructor; [done|].
      eapply Forall_impl; [exact Hb|]. intros c Hc. by eapply le_trans.
    + constructor; [done|].
      rewrite inserer_Permutation. constructor; [by apply le_total|done].
Qed.

Lemma sorted_StronglySorted (l : list A) :
  StronglySorted (fun u v => le u v = true) (sorted le l).
Proof.
  induction l as [|a l IH]; simpl; [constructor|].
  by apply inserer_StronglySorted.
Qed.
End TriProprietes.

Lemma StronglySorted_impl {A : Type} (R S : A -> A -> Prop) (l : list A) :
  (forall a b, R a b -> S a b) -> StronglySorted R l -> StronglySorted S l.
Proof.
  intros HRS. induction 1 as [|a l Hl IH Ha]; constructor; [done|].
  eapply Forall_impl; [exact Ha|]. auto.
Qed.

(** ** Row grouping *)

Lemma ordre_yx_total (a b : Case) : ordre_yx a b = false -> ordre_yx b a = true.
Proof. unfold ordre_yx. intros H. lia. Qed.

Lemma ordre_yx_trans (a b c : Case) :
  ordre_yx a b = true -> ordre_yx b c = true -> ordre_yx a c = true.
Proof. unfold ordre_yx. lia. Qed.

Lemma ordre_yx_y (a b : Case) : ordre_yx a b = true -> y a <= y b.
Proof. unfold ordre_yx. lia. Qed.

Lemma ordre_x_total (a b : Case) : ordre_x a b = false -> ordre_x b a = true.
Proof. unfold ordre_x. lia. Qed.

Lemma ordre_x_trans (a b c : Case) :
  ordre_x a b = true -> ordre_x b c = true -> ordre_x a c = true.
Proof. unfold ordre_x. lia. Qed.

Lemma regrouper_boucle_lignes tol reste cur yref lignes :
  regrouper_boucle tol reste cur yref lignes
  = lignes ++ regrouper_boucle tol reste cur yref [].
Proof.
  revert cur yref lignes.
  induction reste as [|c reste IH]; intros cur yref lignes; simpl.
  - destruct cur; [by rewrite app_nil_r|done].
  - destruct (Z.abs (y c - yref) <=? tol); [apply IH|].
    rewrite (IH [c] (y c) (lignes ++ _)), (IH [c] (y c) [_]).
    by rewrite <- app_assoc.
Qed.

Lemma regrouper_boucle_decoupe tol reste :
  StronglySorted (fun a b => y a <= y b) reste ->
  forall c0 r,
    Forall (fun c => y c0 <= y c <= y c0 + tol) r ->
    Forall (fun c => y c0 <= y c) reste ->
    exists r' segs,
      regrouper_boucle tol reste (c0 :: r) (y c0) []
      = map (sorted ordre_x) ((c0 :: r') :: segs)
      /\ concat ((c0 :: r') :: segs) = (c0 :: r) ++ reste
      /\ bien_decoupe tol ((c0 :: r') :: segs).
Proof.
  induction 1 as [|c reste Hs IH Hc]; intros c0 r Hr Hreste.
  - exists r, []. simpl. rewrite !app_nil_r. split_and!; [done..|].
    by constructor.
  - apply Forall_cons in Hreste as [Hc0 Hreste]. simpl.
    destruct (Z.abs (y c - y c0) <=? tol) eqn:E.
    + destruct (IH c0 (r ++ [c])) as (r' & segs & E1 & E2 & E3); [|done|].
      { apply Forall_app. split; [done|]. constructor; [lia|done]. }
      exists r', segs. split_and!; [done| |done].
      etrans; [exact E2|]. simpl. by rewrite <- app_assoc.
    + destruct (IH c []) as (r' & segs & E1 & E2 & E3); [done|..].
      { eapply Forall_impl; [exact Hc|]. simpl. lia. }
      rewrite regrouper_boucle_lignes, E1.
      exists r, ((c :: r') :: segs). split_and!; [done|..].
      * change (concat ((c0 :: r) :: (c :: r') :: segs))
          with ((c0 :: r) ++ concat ((c :: r') :: segs)).
        f_equal. f_equal. exact E2.
      * constructor; [done|lia|done].
Qed.

Lemma bien_decoupe_lookup tol segs :
  bien_decoupe tol segs ->
  (forall i s, segs !! i = Some s ->
     exists c0 r, s = c0 :: r /\ Forall (fun c => y c0 <= y c <= y c0 + tol) r)
  /\ (forall i s1 s2, segs !! i = Some s1 -> segs !! S i = Some s2 ->
        exists c0 r d0 r', s1 = c0 :: r /\ s2 = d0 :: r' /\ y c0 + tol < y d0).
Proof.
  induction 1 as [c0 r Hr|c0 r d0 r' segs Hr Hd Hsegs [IH1 IH2]].
  - split.
    + intros [|i] s Hs; simpl in Hs; [|by destruct i].
      injection Hs as <-. eauto.
    + intros [|i] s1 s2 _ Hs2; simpl in Hs2; [done|by destruct i].
  - split.
    + intros [|i] s Hs; simpl in Hs; [|by eapply IH1].
      injection Hs as <-. eauto.
    + intros [|i] s1 s2 Hs1 Hs2; [|by eapply IH2].
      simpl in Hs1, Hs2. injection Hs1 as <-. injection Hs2 as <-.
      by exists c0, r, d0, r'.
Qed.

Lemma regrouper_par_lignes_decoupe cases tol :
  cases <> [] ->
  exists segs,
    regrouper_par_lignes cases tol = map (sorted ordre_x) segs
    /\ concat segs = sorted ordre_yx cases
    /\ bien_decoupe tol segs.
Proof.
  intros Hne. unfold regrouper_par_lignes.
  pose proof (sorted_StronglySorted ordre_yx ordre_yx_total ordre_yx_trans cases) as Hs.
  destruct (sorted ordre_yx cases) as [|c0 reste] eqn:E.
  { by apply sorted_nil_inv in E. }
  apply StronglySorted_inv in Hs as [Hs Hc0].
  destruct (regrouper_boucle_decoupe tol reste) with (c0 := c0) (r := @nil Case)
    as (r' & segs & E1 & E2 & E3).
  - eapply StronglySorted_impl; [|exact Hs]. apply ordre_yx_y.
  - constructor.
  - eapply Forall_impl; [exact Hc0|]. apply ordre_yx_y.
  - by exists ((c0 :: r') :: segs).
Qed.

Lemma regrouper_par_lignes_nil tol : regrouper_par_lignes [] tol = [].
Proof. reflexivity. Qed.

Lemma concat_map_Permutation {A : Type} (f : list A -> list A) (segs : list (list A)) :
  (forall s, f s ≡ₚ s) -> concat (map f segs) ≡ₚ concat segs.
Proof.
  intros Hf. induction segs as [|s segs IH]; simpl; [done|].
  by rewrite Hf, IH.
Qed.

(** C5. Row grouping sorts the boxes by [(y, x)] and cuts the sorted list
    into consecutive rows: a box stays in the current row while its [y] is
    at most 50 above the [y] of the first box of the row, and the row that
    follows starts with a box more than 50 above that reference.  Every
    row is returned sorted by ascending [x].  Boxes at
    [y = 100, 105, 102, 400, 403] give two rows, of 3 and of 2 boxes. *)
Theorem C5_regrouper_par_lignes (cases : list Case) :
  (exists segs : list (list Case),
     concat segs = sorted ordre_yx cases
     /\ regrouper_par_lignes cases 50 = map (sorted ordre_x) segs
     /\ (forall i s, segs !! i = Some s ->
           exists c0 r, s = c0 :: r
                        /\ Forall (fun c => y c0 <= y c <= y c0 + 50) r)
     /\ (forall i s1 s2, segs !! i = Some s1 -> segs !! S i = Some s2 ->
           exists c0 r d0 r', s1 = c0 :: r /\ s2 = d0 :: r'
                              /\ y c0 + 50 < y d0))
  /\ sorted ordre_yx cases ≡ₚ cases
  /\ StronglySorted (fun a b => y a < y b \/ (y a = y b /\ x a <= x b))
                    (sorted ordre_yx cases)
  /\ Forall (StronglySorted (fun a b => x a <= x b)) (regrouper_par_lignes cases 50)
  /\ (map y cases = [100; 105; 102; 400; 403] ->
      map length (regrouper_par_lignes cases 50) = [3; 2]%nat).
Proof.
  assert (Hrows : forall segs : list (list Case),
            Forall (StronglySorted (fun a b => x a <= x b))
                   (map (sorted ordre_x) segs)).
  { intros segs. apply Forall_forall. intros l [s [-> _]]%list_elem_of_fmap.
    eapply StronglySorted_impl;
      [|apply (sorted_StronglySorted ordre_x ordre_x_total ordre_x_trans)].
    unfold ordre_x. intros a b. simpl. lia. }
  split_and!.
  - destruct cases as [|c cases].
    + exists []. split_and!; [done|done|intros i s Hs; by destruct i|].
      intros i s1 s2 Hs; by destruct i.
    + destruct (regrouper_par_lignes_decoupe (c :: cases) 50) as (segs & E1 & E2 & E3);
        [done|].
      apply bien_decoupe_lookup in E3 as [E3 E4]. by exists segs.
  - apply sorted_Permutation.
  - eapply StronglySorted_impl;
      [|apply (sorted_StronglySorted ordre_yx ordre_yx_total ordre_yx_trans)].
    unfold ordre_yx. intros a b. simpl. lia.
  - destruct cases as [|c cases]; [constructor|].
    destruct (regrouper_par_lignes_decoupe (c :: cases) 50) as (segs & -> & _);
      [done|apply Hrows].
  - intros Hy.
    destruct cases as [|[x1 y1 w1 h1 a1] [|[x2 y2 w2 h2 a2] [|[x3 y3 w3 h3 a3]
      [|[x4 y4 w4 h4 a4] [|[x5 y5 w5 h5 a5] [|? ?]]]]]]; try discriminate Hy.
    simpl in Hy. injection Hy as -> -> -> -> ->.
    unfold regrouper_par_lignes.
    assert (sorted ordre_yx
              [Build_Case x1 100 w1 h1 a1; Build_Case x2 105 w2 h2 a2;
               Build_Case x3 102 w3 h3 a3; Build_Case x4 400 w4 h4 a4;
               Build_Case x5 403 w5 h5 a5]
            = [Build_Case x1 100 w1 h1 a1; Build_Case x3 102 w3 h3 a3;
               Build_Case x2 105 w2 h2 a2; Build_Case x4 400 w4 h4 a4;
               Build_Case x5 403 w5 h5 a5]) as -> by reflexivity.
    cbv -[sorted length ordre_x]. by rewrite !sorted_length.
Qed.

Lemma C5_regrouper_par_lignes_witness :
  map length
      (regrouper_par_lignes
         [Build_Case 700 100 40 40 1600; Build_Case 300 105 40 40 1600;
          Build_Case 500 102 40 40 1600; Build_Case 320 400 40 40 1600;
          Build_Case 110 403 40 40 1600] 50)
  = [3; 2]%nat.
Proof.
  apply (C5_regrouper_par_lignes
           [Build_Case 700 100 40 40 1600; Build_Case 300 105 40 40 1600;
            Build_Case 500 102 40 40 1600; Build_Case 320 400 40 40 1600;
            Build_Case 110 403 40 40 1600]).
  reflexivity.
Defined.

(** C10. Row grouping returns a partition of its input: the rows put end to
    end hold exactly the boxes of the input, each as often as the input
    does, no row is empty, and no box gives no row. *)
Theorem C10_regrouper_partition (cases : list Case) (tolerance_y : Z) :
  concat (regrouper_par_lignes cases tolerance_y) ≡ₚ cases
  /\ Forall (fun ligne => ligne <> []) (regrouper_par_lignes cases tolerance_y)
  /\ regrouper_par_lignes [] tolerance_y = [].
Proof.
  split_and!; [| |done].
  - destruct cases as [|c cases]; [done|].
    destruct (regrouper_par_lignes_decoupe (c :: cases) tolerance_y)
      as (segs & -> & E2 & _); [done|].
    rewrite concat_map_Permutation by apply sorted_Permutation.
    rewrite E2. apply sorted_Permutation.
  - destruct cases as [|c cases]; [constructor|].
    destruct (regrouper_par_lignes_decoupe (c :: cases) tolerance_y)
      as (segs & -> & _ & E3); [done|].
    apply bien_decoupe_lookup in E3 as [E3 _].
    apply Forall_forall. intros l [s [-> Hs]]%list_elem_of_fmap.
    apply list_elem_of_lookup in Hs as [i Hi].
    destruct (E3 i s Hi) as (c0 & r & -> & _).
    intros E. apply sorted_nil_inv in E. discriminate E.
Qed.

(** ** Deduplication *)

Lemma Qlt_bool_iff (a b : Q) : Qlt_bool a b = true <-> (a < b)%Q.
Proof.
  unfold Qlt_bool. rewrite negb_true_iff, <- not_true_iff_false, Qle_bool_iff.
  split; [apply Qnot_le_lt|apply Qlt_not_le].
Qed.

Lemma Qlt_bool_false (a b : Q) : Qlt_bool a b = false <-> (b <= a)%Q.
Proof.
  unfold Qlt_bool. by rewrite negb_false_iff, Qle_bool_iff.
Qed.

Lemma distance2_sym (a b : Case) : (distance2 a b == distance2 b a)%Q.
Proof. unfold distance2. ring. Qed.

(** A box is a duplicate exactly when some accepted box is nearer than 10
    pixels, that is, when not all of them are at 10 pixels or more. *)
Lemma est_doublon_false (case : Case) (cases_uniques : list Case) :
  existsb (fun u => distance_inferieure case u 10) cases_uniques = false
  <-> Forall (fun u => (100 <= distance2 case u)%Q) cases_uniques.
Proof.
  induction cases_uniques as [|u l IH]; simpl.
  - split; [constructor|done].
  - rewrite orb_false_iff, IH, Forall_cons.
    unfold distance_inferieure. simpl (0 <? 10). rewrite andb_true_l.
    by rewrite Qlt_bool_false.
Qed.

Lemma dedupliquer_pas_loin dmin (cases_uniques : list Case) (case : Case) :
  existsb (fun u => distance_inferieure case u dmin) cases_uniques = false ->
  dedupliquer_pas dmin cases_uniques case = cases_uniques ++ [case].
Proof. unfold dedupliquer_pas. by intros ->. Qed.

Lemma dedupliquer_pas_doublon dmin (cases_uniques : list Case) (case : Case) :
  existsb (fun u => distance_inferieure case u dmin) cases_uniques = true ->
  dedupliquer_pas dmin cases_uniques case = cases_uniques.
Proof. unfold dedupliquer_pas. by intros ->. Qed.

Lemma dedupliquer_boucle_prefixe dmin (l cases_uniques : list Case) :
  exists suite,
    fold_left (dedupliquer_pas dmin) l cases_uniques = cases_uniques ++ suite.
Proof.
  revert cases_uniques. induction l as [|c l IH]; intros acc; simpl.
  - exists []. by rewrite app_nil_r.
  - destruct (IH (dedupliquer_pas dmin acc c)) as [suite ->].
    unfold dedupliquer_pas. destruct (existsb _ acc); [by exists suite|].
    exists (c :: suite). by rewrite <- app_assoc.
Qed.

Lemma dedupliquer_cases_boucle (cases : list Case) dmin :
  dedupliquer_cases cases dmin
  = fold_left (dedupliquer_pas dmin) (sorted aire_decroissante cases) [].
Proof. by destruct cases. Qed.

Lemma aire_decroissante_total (a b : Case) :
  aire_decroissante a b = false -> aire_decroissante b a = true.
Proof. unfold aire_decroissante. lia. Qed.

Lemma aire_decroissante_trans (a b c : Case) :
  aire_decroissante a b = true -> aire_decroissante b c = true ->
  aire_decroissante a c = true.
Proof. unfold aire_decroissante. lia. Qed.

(** ** Lists in which a relation holds from each element to every later one *)

Lemma StronglySorted_snoc {A : Type} (R : A -> A -> Prop) (l : list A) (c : A) :
  StronglySorted R l -> Forall (fun u => R u c) l -> StronglySorted R (l ++ [c]).
Proof.
  induction 1 as [|a l Hl IH Ha]; intros Hc; simpl.
  - repeat constructor.
  - apply Forall_cons in Hc as [Hac Hc]. constructor; [by apply IH|].
    apply Forall_app. split; [done|]. by constructor.
Qed.

Lemma StronglySorted_avant {A : Type} (R : A -> A -> Prop) (l1 l2 : list A) (c : A) :
  StronglySorted R (l1 ++ c :: l2) -> Forall (fun u => R u c) l1.
Proof.
  induction l1 as [|a l1 IH]; simpl; intros H; [constructor|].
  apply StronglySorted_inv in H as [H Ha]. constructor; [|by apply IH].
  apply Forall_app in Ha as [_ Ha]. by apply Forall_cons in Ha as [? _].
Qed.

Lemma StronglySorted_apres {A : Type} (R : A -> A -> Prop) (l1 l2 : list A) (c : A) :
  StronglySorted R (l1 ++ c :: l2) -> Forall (R c) l2.
Proof.
  induction l1 as [|a l1 IH]; simpl; intros H;
    apply StronglySorted_inv in H as [H Ha]; [done|by apply IH].
Qed.

Lemma StronglySorted_sous_liste {A : Type} (R : A -> A -> Prop) (k l : list A) :
  k `sublist_of` l -> StronglySorted R l -> StronglySorted R k.
Proof.
  induction 1 as [|a k l Hkl IH|a k l Hkl IH]; intros Hl; [done|..].
  - apply StronglySorted_inv in Hl as [Hl Ha]. constructor; [by apply IH|].
    apply Forall_forall. intros b Hb. rewrite Forall_forall in Ha.
    apply Ha. by apply (sublist_subseteq k l).
  - apply StronglySorted_inv in Hl as [Hl _]. by apply IH.
Qed.

Lemma StronglySorted_lookup {A : Type} (R : A -> A -> Prop) (l : list A)
    (i j : nat) (a b : A) :
  StronglySorted R l -> (i < j)%nat -> l !! i = Some a -> l !! j = Some b -> R a b.
Proof.
  intros Hl. revert i j. induction Hl as [|c l Hl IH Hc]; intros i j Hij Hi Hj.
  - done.
  - destruct j as [|j]; [lia|]. simpl in Hj. destruct i as [|i]; simpl in Hi.
    + injection Hi as <-. rewrite Forall_forall in Hc.
      apply Hc. by eapply list_elem_of_lookup_2.
    + apply (IH i j); [lia|done..].
Qed.

Lemma StronglySorted_symetrique {A : Type} (R : A -> A -> Prop) (l l' : list A) :
  (forall a b, R a b -> R b a) ->
  l ≡ₚ l' -> StronglySorted R l -> StronglySorted R l'.
Proof.
  intros Hsym. induction 1 as [|a l l' Hp IH|a b l|l l' l'' _ IH1 _ IH2]; intros Hl.
  - done.
  - apply StronglySorted_inv in Hl as [Hl Ha].
    constructor; [by apply IH|]. by rewrite <- Hp.
  - apply StronglySorted_inv in Hl as [Hl Ha].
    apply StronglySorted_inv in Hl as [Hl Hb].
    apply Forall_cons in Ha as [Hab Ha].
    constructor; [by constructor|]. constructor; [by apply Hsym|done].
  - by apply IH2, IH1.
Qed.

(** A list that is in order already is left as it is by [sorted]. *)
Lemma sorted_deja_trie {A : Type} (le : A -> A -> bool) (l : list A) :
  StronglySorted (fun u v => le u v = true) l -> sorted le l = l.
Proof.
  induction 1 as [|a l Hl IH Ha]; simpl; [done|].
  rewrite IH. destruct l as [|b l]; simpl; [done|].
  apply Forall_cons in Ha as [-> _]. done.
Qed.

(** ** Invariants of the deduplication loop *)

Lemma est_doublon_false_general dmin (case : Case) (cases_uniques : list Case) :
  existsb (fun u => distance_inferieure case u dmin) cases_uniques = false
  <-> Forall (fun u => distance_inferieure case u dmin = false) cases_uniques.
Proof.
  induction cases_uniques as [|u l IH]; simpl.
  - split; [constructor|done].
  - by rewrite orb_false_iff, IH, Forall_cons.
Qed.

Lemma dedupliquer_boucle_sous_liste dmin (l acc : list Case) :
  exists k, fold_left (dedupliquer_pas dmin) l acc = acc ++ k /\ k `sublist_of` l.
Proof.
  revert acc. induction l as [|c l IH]; intros acc; simpl.
  - exists []. by rewrite app_nil_r.
  - destruct (IH (dedupliquer_pas dmin acc c)) as (k & -> & Hk).
    unfold dedupliquer_pas. destruct (existsb _ acc).
    + exists k. split; [done|]. by apply sublist_cons.
    + exists (c :: k). rewrite <- app_assoc. split; [done|]. by apply sublist_skip.
Qed.

Lemma dedupliquer_boucle_separees dmin (l acc : list Case) :
  StronglySorted (fun u v => distance_inferieure v u dmin = false) acc ->
  StronglySorted (fun u v => distance_inferieure v u dmin = false)
                 (fold_left (dedupliquer_pas dmin) l acc).
Proof.
  revert acc. induction l as [|c l IH]; intros acc Hacc; simpl; [done|].
  apply IH. unfold dedupliquer_pas.
  destruct (existsb _ acc) eqn:E; [done|].
  apply StronglySorted_snoc; [done|]. by apply est_doublon_false_general.
Qed.

Lemma dedupliquer_boucle_separees_id dmin (l acc : list Case) :
  StronglySorted (fun u v => distance_inferieure v u dmin = false) (acc ++ l) ->
  fold_left (dedupliquer_pas dmin) l acc = acc ++ l.
Proof.
  revert acc. induction l as [|c l IH]; intros acc H; simpl.
  - by rewrite app_nil_r.
  - pose proof (StronglySorted_avant _ _ _ _ H) as Hc. simpl in Hc.
    apply est_doublon_false_general in Hc.
    rewrite (dedupliquer_pas_loin dmin acc c Hc).
    rewrite IH; rewrite <- app_assoc; done.
Qed.

Lemma dedupliquer_cases_sous_liste (cases : list Case) dmin :
  dedupliquer_cases cases dmin `sublist_of` sorted aire_decroissante cases.
Proof.
  rewrite dedupliquer_cases_boucle.
  by destruct (dedupliquer_boucle_sous_liste dmin (sorted aire_decroissante cases) [])
    as (k & -> & Hk).
Qed.

Lemma dedupliquer_cases_aires (cases : list Case) dmin :
  StronglySorted (fun u v => aire_decroissante u v = true)
                 (dedupliquer_cases cases dmin).
Proof.
  eapply StronglySorted_sous_liste; [apply dedupliquer_cases_sous_liste|].
  apply sorted_StronglySorted;
    [apply aire_decroissante_total|apply aire_decroissante_trans].
Qed.

Lemma dedupliquer_cases_paires (cases : list Case) dmin :
  StronglySorted (fun u v => distance_inferieure v u dmin = false)
                 (dedupliquer_cases cases dmin).
Proof.
  rewrite dedupliquer_cases_boucle. apply dedupliquer_boucle_separees. constructor.
Qed.

Lemma distance_inferieure_false (c1 c2 : Case) (dmin : Z) :
  0 < dmin ->
  distance_inferieure c1 c2 dmin = false
  <-> (inject_Z (dmin * dmin) <= distance2 c1 c2)%Q.
Proof.
  intros Hd. unfold distance_inferieure.
  destruct (Z.ltb_spec 0 dmin) as [_|?]; [|lia].
  by rewrite andb_true_l, Qlt_bool_false.
Qed.

(** C4, as the code has it.  Deduplication goes through the candidates by
    descending area.  A candidate is accepted when its centre is at 10
    pixels or more from the centre of every candidate accepted before it
    (the squared distance is at least 100), and dropped otherwise; what is
    accepted stays.  Two candidates whose centres are 5 pixels apart never
    survive both.  When the one that comes first by area is at 10 pixels or
    more from every candidate accepted before it, it survives and the other
    does not; and when the two are the only candidates, one survives, and
    none has a larger area than it. *)
Theorem C4_dedupliquer_cases (cases : list Case) :
  let cases_triees := sorted aire_decroissante cases in
  cases_triees ≡ₚ cases
  /\ StronglySorted (fun a b => aire b <= aire a) cases_triees
  /\ dedupliquer_cases cases 10 = fold_left (dedupliquer_pas 10) cases_triees []
  /\ (forall avant case apres,
        cases_triees = avant ++ case :: apres ->
        let acceptees := fold_left (dedupliquer_pas 10) avant [] in
        let acceptees' := fold_left (dedupliquer_pas 10) (avant ++ [case]) [] in
        (Forall (fun u => (100 <= distance2 case u)%Q) acceptees ->
         acceptees' = acceptees ++ [case])
        /\ (~ Forall (fun u => (100 <= distance2 case u)%Q) acceptees ->
            acceptees' = acceptees)
        /\ exists suite, dedupliquer_cases cases 10 = acceptees' ++ suite)
  /\ (forall a b,
        (distance2 a b == 25)%Q ->
        ~ (a ∈ dedupliquer_cases cases 10 /\ b ∈ dedupliquer_cases cases 10))
  /\ (forall avant a apres b,
        cases_triees = avant ++ a :: apres -> b ∈ apres ->
        (distance2 a b == 25)%Q ->
        Forall (fun u => (100 <= distance2 a u)%Q)
               (fold_left (dedupliquer_pas 10) avant []) ->
        aire b <= aire a
        /\ a ∈ dedupliquer_cases cases 10
        /\ b ∉ dedupliquer_cases cases 10)
  /\ (forall a b,
        (distance2 a b == 25)%Q ->
        exists c, dedupliquer_cases [a; b] 10 = [c]
                  /\ c = (if aire b <=? aire a then a else b)
                  /\ aire c = Z.max (aire a) (aire b)).
Proof.
  intros cases_triees.
  assert (Hsorted : StronglySorted (fun a b => aire b <= aire a) cases_triees).
  { eapply StronglySorted_impl;
      [|apply (sorted_StronglySorted _ aire_decroissante_total aire_decroissante_trans)].
    unfold aire_decroissante. intros a b. simpl. lia. }
  assert (Hpas : forall avant case apres,
        cases_triees = avant ++ case :: apres ->
        let acceptees := fold_left (dedupliquer_pas 10) avant [] in
        let acceptees' := fold_left (dedupliquer_pas 10) (avant ++ [case]) [] in
        (Forall (fun u => (100 <= distance2 case u)%Q) acceptees ->
         acceptees' = acceptees ++ [case])
        /\ (~ Forall (fun u => (100 <= distance2 case u)%Q) acceptees ->
            acceptees' = acceptees)
        /\ exists suite, dedupliquer_cases cases 10 = acceptees' ++ suite).
  { intros avant case apres E acceptees acceptees'.
    unfold acceptees'. rewrite fold_left_app. simpl. fold acceptees.
    split_and!.
    + intros H. by apply dedupliquer_pas_loin, est_doublon_false.
    + intros H. apply dedupliquer_pas_doublon.
      rewrite <- est_doublon_false in H. by destruct (existsb _ acceptees).
    + rewrite dedupliquer_cases_boucle. fold cases_triees. rewrite E.
      rewrite fold_left_app. simpl. apply dedupliquer_boucle_prefixe. }
  assert (Hjamais : forall a b,
        (distance2 a b == 25)%Q ->
        ~ (a ∈ dedupliquer_cases cases 10 /\ b ∈ dedupliquer_cases cases 10)).
  { intros a b Hab [Ha Hb].
    apply list_elem_of_lookup in Ha as [i Hi].
    apply list_elem_of_lookup in Hb as [j Hj].
    pose proof (dedupliquer_cases_paires cases 10) as Hp.
    destruct (Nat.lt_total i j) as [Hij|[->|Hij]].
    - pose proof (StronglySorted_lookup _ _ i j a b Hp Hij Hi Hj) as H.
      simpl in H. apply distance_inferieure_false in H; [|lia].
      rewrite distance2_sym, Hab in H. by vm_compute in H.
    - rewrite Hi in Hj. injection Hj as <-.
      assert (H0 : (distance2 a a == 0)%Q) by (unfold distance2; ring).
      rewrite H0 in Hab. by vm_compute in Hab.
    - pose proof (StronglySorted_lookup _ _ j i b a Hp Hij Hj Hi) as H.
      simpl in H. apply distance_inferieure_false in H; [|lia].
      rewrite Hab in H. by vm_compute in H. }
  split; [apply sorted_Permutation|]. split; [done|].
  split; [apply dedupliquer_cases_boucle|]. split; [done|]. split; [done|].
  split.
  - intros avant a apres b E Hb Hab Hloin.
    assert (Ha : a ∈ dedupliquer_cases cases 10).
    { destruct (Hpas avant a apres E) as (Hacc & _ & suite & ->).
      cbv zeta in Hacc. rewrite (Hacc Hloin).
      rewrite !elem_of_app. left. right. apply list_elem_of_here. }
    split; [|split; [done|]].
    + rewrite E in Hsorted. apply StronglySorted_apres in Hsorted.
      rewrite Forall_forall in Hsorted. by apply Hsorted.
    + intros Hb'. by apply (Hjamais a b Hab).
  - intros a b Hab.
    assert (Hnear : forall u v, (distance2 u v == 25)%Q ->
                     distance_inferieure u v 10 = true).
    { intros u v Huv. unfold distance_inferieure. simpl (0 <? 10).
      rewrite andb_true_l. apply Qlt_bool_iff. by rewrite Huv. }
    unfold dedupliquer_cases. simpl. unfold aire_decroissante.
    destruct (aire b <=? aire a) eqn:E; simpl; unfold dedupliquer_pas; simpl.
    + rewrite (Hnear b a) by (by rewrite distance2_sym). simpl.
      exists a. split_and!; [done..|lia].
    + rewrite (Hnear a b) by done. simpl.
      exists b. split_and!; [done..|lia].
Qed.

Lemma C4_dedupliquer_cases_witness :
  fold_left (dedupliquer_pas 10)
            ([Build_Case 0 0 40 40 1600] ++ [Build_Case 5 0 40 40 1500]) []
  = fold_left (dedupliquer_pas 10) [Build_Case 0 0 40 40 1600] []
  /\ (aire (Build_Case 5 0 40 40 1500) <= aire (Build_Case 0 0 40 40 1600)
      /\ Build_Case 0 0 40 40 1600
           ∈ dedupliquer_cases
               [Build_Case 5 0 40 40 1500; Build_Case 0 0 40 40 1600] 10
      /\ Build_Case 5 0 40 40 1500
           ∉ dedupliquer_cases
               [Build_Case 5 0 40 40 1500; Build_Case 0 0 40 40 1600] 10)
  /\ exists c,
       dedupliquer_cases [Build_Case 5 0 40 40 1500; Build_Case 0 0 40 40 1600] 10
       = [c]
       /\ c = Build_Case 0 0 40 40 1600
       /\ aire c = Z.max 1500 1600.
Proof.
  pose proof (C4_dedupliquer_cases
                [Build_Case 5 0 40 40 1500; Build_Case 0 0 40 40 1600]) as H.
  cbv zeta in H. destruct H as (_ & _ & _ & H1 & _ & H2 & H3).
  split; [|split].
  - destruct (H1 [Build_Case 0 0 40 40 1600] (Build_Case 5 0 40 40 1500) [] eq_refl)
      as (_ & H & _).
    apply H. intros HF. apply Forall_cons in HF as [HF _].
    vm_compute in HF. by apply HF.
  - apply (H2 [] (Build_Case 0 0 40 40 1600) [Build_Case 5 0 40 40 1500]
              (Build_Case 5 0 40 40 1500)).
    + reflexivity.
    + apply list_elem_of_here.
    + reflexivity.
    + constructor.
  - apply (H3 (Build_Case 5 0 40 40 1500) (Build_Case 0 0 40 40 1600)).
    reflexivity.
Defined.

(** C4 as stated fails.  Of three candidates on one row, at x = 0, 8 and 13
    with areas 2400, 2000 and 1500, the second and the third have their
    centres 5 pixels apart, and the one that survives is the smaller: the
    second is dropped for the first, 8 pixels from it, and the third is 13
    pixels from the first.  With the candidates at x = 0, 3 and 8 neither
    of the two survives. *)
Lemma C4_counterexample :
  (distance2 (Build_Case 8 0 40 40 2000) (Build_Case 13 0 40 40 1500) == 25)%Q
  /\ dedupliquer_cases
       [Build_Case 0 0 40 40 2400; Build_Case 8 0 40 40 2000;
        Build_Case 13 0 40 40 1500] 10
     = [Build_Case 0 0 40 40 2400; Build_Case 13 0 40 40 1500]
  /\ (distance2 (Build_Case 3 0 40 40 2000) (Build_Case 8 0 40 40 1500) == 25)%Q
  /\ dedupliquer_cases
       [Build_Case 0 0 40 40 2400; Build_Case 3 0 40 40 2000;
        Build_Case 8 0 40 40 1500] 10
     = [Build_Case 0 0 40 40 2400].
Proof. split_and!; by vm_compute. Qed.

(** ** Detection of the boxes *)

Lemma liste_min_le (d : Z) (l : list Z) : liste_min d l <= d.
Proof.
  unfold liste_min. revert d. induction l as [|a l IH]; intros d; simpl; [lia|].
  specialize (IH (Z.min d a)). lia.
Qed.

Lemma liste_max_ge (d : Z) (l : list Z) : d <= liste_max d l.
Proof.
  unfold liste_max. revert d. induction l as [|a l IH]; intros d; simpl; [lia|].
  specialize (IH (Z.max d a)). lia.
Qed.

(** Truncation keeps a value between two integer bounds. *)
Lemma int_Q_bornes (a b : Z) (q : Q) :
  0 <= a -> (inject_Z a <= q)%Q -> (q <= inject_Z b)%Q -> a <= int_Q q <= b.
Proof.
  destruct q as [n d]. unfold Qle, int_Q. simpl. intros Ha H1 H2.
  assert (0 <= n) by nia.
  rewrite Z.quot_div_nonneg by lia. split.
  - apply Z.div_le_lower_bound; lia.
  - apply Z.div_le_upper_bound; lia.
Qed.

Lemma garder_contour_iff (cnt : Contour) :
  garder_contour 1000 2500 0.85 1.4 cnt = true
  <-> length (approx cnt) = 4%nat
      /\ (1000 <= contourArea (points cnt) <= 2500)%Q
      /\ 0 < (boundingRect (points cnt)).2
      /\ (0.85 <= inject_Z (boundingRect (points cnt)).1.2
                  / inject_Z (boundingRect (points cnt)).2 <= 1.4)%Q.
Proof.
  unfold garder_contour.
  destruct (boundingRect (points cnt)) as [[[bx by_] bw] bh]. simpl.
  destruct (Nat.eqb_spec (length (approx cnt)) 4) as [E|E];
    [|split; [done|by intros [? _]]].
  rewrite !andb_true_iff, !Qle_bool_iff.
  destruct (Z.ltb_spec 0 bh) as [Hh|Hh]; [tauto|].
  split; [|intros (_ & _ & ? & _); lia].
  intros [[_ H] _]. exfalso. revert H. by vm_compute.
Qed.

Lemma ratio_largeur_positive (bw bh : Z) :
  0 < bh -> (0.85 <= inject_Z bw / inject_Z bh)%Q -> 0 < bw.
Proof.
  intros Hh. destruct bh as [|p|p]; try lia.
  unfold Qle, Qdiv, Qmult, Qinv. simpl. lia.
Qed.

Lemma garder_contour_case (cnt : Contour) :
  garder_contour 1000 2500 0.85 1.4 cnt = true ->
  1000 <= aire (case_de_contour cnt) <= 2500
  /\ 0 < w (case_de_contour cnt) /\ 0 < h (case_de_contour cnt)
  /\ (0.85 <= inject_Z (w (case_de_contour cnt)) / inject_Z (h (case_de_contour cnt))
      <= 1.4)%Q.
Proof.
  intros (_ & [Ha1 Ha2] & Hh & Hr)%garder_contour_iff.
  unfold case_de_contour.
  destruct (boundingRect (points cnt)) as [[[bx by_] bw] bh]. simpl in *.
  split; [by apply (int_Q_bornes 1000 2500)|].
  split; [|by split].
  eapply ratio_largeur_positive; [exact Hh|apply Hr].
Qed.

(** C6, as the code has it. A contour is kept exactly when its polygon
    approximation has 4 vertices, the area it encloses ([cv2.contourArea],
    not the area of its bounding rectangle) lies in [1000, 2500], bounds
    included, and the width/height quotient of its bounding rectangle lies
    in [0.85, 1.4], bounds included.  Every returned box is the bounding
    rectangle of a kept contour, with a positive width and height, a
    quotient in [0.85, 1.4] and an area entry in [1000, 2500]. *)
Theorem C6_detecter_cases (contours : list Contour) :
  (forall cnt,
     garder_contour 1000 2500 0.85 1.4 cnt = true
     <-> length (approx cnt) = 4%nat
         /\ (1000 <= contourArea (points cnt) <= 2500)%Q
         /\ 0 < (boundingRect (points cnt)).2
         /\ (0.85 <= inject_Z (boundingRect (points cnt)).1.2
                     / inject_Z (boundingRect (points cnt)).2 <= 1.4)%Q)
  /\ detecter_cases contours 1000 2500 0.85 1.4
     = map case_de_contour
           (List.filter (garder_contour 1000 2500 0.85 1.4) contours)
  /\ (forall c,
        c ∈ detecter_cases contours 1000 2500 0.85 1.4 ->
        exists cnt,
          cnt ∈ contours
          /\ garder_contour 1000 2500 0.85 1.4 cnt = true
          /\ (x c, y c, w c, h c) = boundingRect (points cnt)
          /\ aire c = int_Q (contourArea (points cnt))
          /\ 1000 <= aire c <= 2500
          /\ 0 < w c /\ 0 < h c
          /\ (0.85 <= inject_Z (w c) / inject_Z (h c) <= 1.4)%Q).
Proof.
  split_and!; [apply garder_contour_iff|done|].
  intros c [cnt [-> Hcnt]]%list_elem_of_fmap.
  apply list_elem_of_In, filter_In in Hcnt as [Hin Hk].
  exists cnt. pose proof (garder_contour_case cnt Hk) as (? & ? & ? & ?).
  split; [by apply list_elem_of_In|]. split; [done|].
  split; [|split; [|done]];
    unfold case_de_contour;
    by destruct (boundingRect (points cnt)) as [[[bx by_] bw] bh].
Qed.

Lemma C6_detecter_cases_witness :
  exists cnt,
    cnt ∈ [Build_Contour [(0, 0); (0, 39); (39, 39); (39, 0)]
                         [(0, 0); (0, 39); (39, 39); (39, 0)]]
    /\ garder_contour 1000 2500 0.85 1.4 cnt = true
    /\ (0, 0, 40, 40) = boundingRect (points cnt)
    /\ 1521 = int_Q (contourArea (points cnt))
    /\ 1000 <= 1521 <= 2500
    /\ 0 < 40 /\ 0 < 40
    /\ (0.85 <= inject_Z 40 / inject_Z 40 <= 1.4)%Q.
Proof.
  apply (proj2 (proj2 (C6_detecter_cases
                  [Build_Contour [(0, 0); (0, 39); (39, 39); (39, 0)]
                                 [(0, 0); (0, 39); (39, 39); (39, 0)]]))
               (Build_Case 0 0 40 40 1521)).
  vm_compute. apply list_elem_of_here.
Defined.

(** C6 as stated fails: the contour of a square of 32 by 32 pixels has 4
    vertices, a bounding rectangle of area 1024 and a quotient of 1, and yet
    is not kept, because the area it encloses is 961. *)
Lemma C6_counterexample :
  length (approx (Build_Contour [(0, 0); (0, 31); (31, 31); (31, 0)]
                                [(0, 0); (0, 31); (31, 31); (31, 0)])) = 4%nat
  /\ 1000 <= aire_rectangle_englobant
               (Build_Contour [(0, 0); (0, 31); (31, 31); (31, 0)]
                              [(0, 0); (0, 31); (31, 31); (31, 0)]) <= 2500
  /\ (0.85 <= inject_Z 32 / inject_Z 32 <= 1.4)%Q
  /\ boundingRect [(0, 0); (0, 31); (31, 31); (31, 0)] = (0, 0, 32, 32)
  /\ detecter_cases [Build_Contour [(0, 0); (0, 31); (31, 31); (31, 0)]
                                   [(0, 0); (0, 31); (31, 31); (31, 0)]]
                    1000 2500 0.85 1.4 = [].
Proof. split_and!; by vm_compute. Qed.

(** ** Page offset *)

(** C7. The offset is the [x] of the left end of the scale found on the
    scan minus the [x] of the left end of the scale of the template, and 0
    as soon as one of the two scales is absent. *)
Theorem C7_calculer_dx :
  (forall t r : Echelle,
     calculer_dx (Some t) (Some r) = pt_x (gauche r) - pt_x (gauche t))
  /\ (forall echelle_reponse, calculer_dx None echelle_reponse = 0)
  /\ (forall echelle_template, calculer_dx echelle_template None = 0).
Proof.
  split_and!; [done|done|]. by intros [t|].
Qed.

(** ** Edges of the scale line *)

Lemma find_rev_seq_max (f : nat -> bool) (a k d v : nat) :
  List.find f (rev (seq a k)) = Some d ->
  f v = true -> (a <= v < a + k)%nat -> (v <= d)%nat.
Proof.
  revert d. induction k as [|k IH]; intros d Hd Hv Hr; [lia|].
  rewrite seq_S, rev_app_distr in Hd. simpl in Hd.
  destruct (f (a + k)%nat) eqn:E.
  - injection Hd as <-. lia.
  - apply IH; [done..|].
    assert (v <> (a + k)%nat) by (intros ->; congruence). lia.
Qed.

(** The search from the right never stops at column 0. *)
Lemma chercher_bord_droit_positif (arrondi : nat -> bool) (projection : list Q)
    (d : nat) :
  chercher_bord_droit arrondi projection = Some d -> (largeur_min < d)%nat.
Proof.
  unfold chercher_bord_droit. intros [Hin _]%find_some.
  apply in_rev, in_seq in Hin. lia.
Qed.

(** When the function fails: one of the two searches finds no window, or
    the search from the left stops at column 0. *)
Lemma trouver_bords_ligne_echelle_None (arrondi : nat -> bool) (colonnes : list Z) :
  trouver_bords_ligne_echelle arrondi colonnes = None
  <-> chercher_bord_gauche arrondi (normaliser colonnes) = None
      \/ chercher_bord_droit arrondi (normaliser colonnes) = None
      \/ chercher_bord_gauche arrondi (normaliser colonnes) = Some 0%nat.
Proof.
  unfold trouver_bords_ligne_echelle.
  destruct (chercher_bord_gauche arrondi (normaliser colonnes)) as [[|g]|];
    destruct (chercher_bord_droit arrondi (normaliser colonnes)) as [d|] eqn:Ed;
    simpl; try (split; [auto|done]).
  apply chercher_bord_droit_positif in Ed. destruct d; [lia|]. simpl.
  split; [done|]. by intros [?|[?|?]].
Qed.

(** A pair of edges that is returned spans at least one window. *)
Lemma trouver_bords_ligne_echelle_largeur (arrondi : nat -> bool)
    (colonnes : list Z) (g d : nat) :
  trouver_bords_ligne_echelle arrondi colonnes = Some (g, d) ->
  (0 < g /\ g + largeur_min <= d)%nat.
Proof.
  unfold trouver_bords_ligne_echelle.
  destruct (chercher_bord_gauche arrondi (normaliser colonnes)) as [g'|] eqn:Eg; [|done].
  destruct (chercher_bord_droit arrondi (normaliser colonnes)) as [d'|] eqn:Ed;
    [|by rewrite andb_false_r].
  destruct (vrai (Some g') && vrai (Some d')) eqn:Ev; [|done].
  intros [= -> ->]. apply andb_true_iff in Ev as [Hg _].
  simpl in Hg. apply negb_true_iff, Nat.eqb_neq in Hg.
  split; [lia|].
  apply find_some in Eg as [Hin Hf]. apply in_seq in Hin.
  unfold chercher_bord_droit in Ed.
  eapply find_rev_seq_max; [exact Ed| |unfold largeur_min in *; lia].
  simpl. by replace (g + largeur_min - largeur_min)%nat with g by lia.
Qed.

(** The scale that [detecter_echelle_seule] hands to the scoring spans at
    least one search window, so its six graduations are six pixels. *)
Lemma detecter_echelle_seule_largeur (image : Image) (e : Echelle) :
  detecter_echelle_seule image = Some e ->
  0 < pt_x (gauche e) /\ pt_x (gauche e) + 20 <= pt_x (droite e).
Proof.
  unfold detecter_echelle_seule.
  destruct (ligne_echelle image) as [[[[x1 y_echelle] x2] y2]|]; [|done].
  destruct (trouver_bords_ligne_echelle (arrondi_bande image y_echelle)
                                        (colonnes_bande image y_echelle))
    as [[g d]|] eqn:E; [|done].
  intros [= <-]. simpl.
  apply trouver_bords_ligne_echelle_largeur in E. unfold largeur_min in E. lia.
Qed.

(** C8, the defect. On a band whose 100 columns all carry the same ink (a
    line 5 pixels thick that crosses the whole page, 5 * 255 per column),
    both searches find a window: the one
    from the left at column 0, the one from the right at column 99.  The
    function answers [None] all the same: it tests the left edge for truth,
    and the integer 0 is false.  Every window of this band has a mean
    density of 1, far from the threshold, so rounding has no part in it. *)
Theorem C8_bord_gauche_colonne_0 (arrondi : nat -> bool) :
  chercher_bord_gauche arrondi (normaliser (repeat 1275 100)) = Some 0%nat
  /\ chercher_bord_droit arrondi (normaliser (repeat 1275 100)) = Some 99%nat
  /\ trouver_bords_ligne_echelle arrondi (repeat 1275 100) = None.
Proof. split_and!; by vm_compute. Qed.

(** ** Classification of a box *)

Lemma marge_quart (v : Z) : 0 < v -> 0 < v - 2 * int_Q (inject_Z v * 0.25).
Proof.
  intros Hv. unfold int_Q. simpl.
  rewrite Z.quot_div_nonneg by lia.
  Z.to_euclidean_division_equations. lia.
Qed.

Lemma zone_interieure_positive (case : Case) :
  0 < w case -> 0 < h case ->
  0 < (zone_interieure case).1.2 * (zone_interieure case).2.
Proof.
  intros Hw Hh. unfold zone_interieure. simpl.
  pose proof (marge_quart _ Hw). pose proof (marge_quart _ Hh). nia.
Qed.

Lemma filter_length_Exists {A : Type} (f : A -> bool) (P : A -> Prop) (l : list A) :
  (forall a, f a = true <-> P a) ->
  (1 <= length (List.filter f l))%nat <-> Exists P l.
Proof.
  intros HP. induction l as [|a l IH]; simpl.
  - split; [lia|by intros ?%Exists_nil].
  - rewrite Exists_cons. destruct (f a) eqn:E; simpl; [|rewrite IH].
    + split; [left; by apply HP|lia].
    + split; [by right|]. intros [H%HP|?]; [congruence|done].
Qed.

(** C2. For a box of positive width and height the interior has a positive
    area and the classifier returns a result.  It is 'noire', with the ink
    ratio, exactly when the ink ratio is strictly above 0.5 (at 0.5 it is
    not); otherwise it is 'traits', with their number, exactly when some
    connected component of the interior has an area strictly above 10% of
    the area of the interior; otherwise it is 'vide'. *)
Theorem C2_analyser_case (image : Image) (case : Case) :
  0 < w case -> 0 < h case ->
  let '(x_int, y_int, w_int, h_int) := zone_interieure case in
  let binaire := interieur image x_int y_int w_int h_int in
  let aire_int := w_int * h_int in
  let ink_ratio := (inject_Z (count_nonzero binaire) / inject_Z aire_int)%Q in
  let grosse := fun a : Z => (inject_Z aire_int * 0.1 < inject_Z a)%Q in
  0 < aire_int
  /\ exists r,
       analyser_case image case = Ok r
       /\ ((exists q, r = noire q) <-> (0.5 < ink_ratio)%Q)
       /\ ((ink_ratio == 0.5)%Q -> forall q, r <> noire q)
       /\ ((exists n, r = traits n)
           <-> ~ (0.5 < ink_ratio)%Q /\ Exists grosse (aires_composantes binaire))
       /\ (r = vide
           <-> ~ (0.5 < ink_ratio)%Q /\ ~ Exists grosse (aires_composantes binaire))
       /\ (forall q, r = noire q -> q = ink_ratio)
       /\ (forall n, r = traits n ->
             n = length (List.filter (fun a => Qlt_bool (inject_Z aire_int * 0.1)
                                                           (inject_Z a))
                                     (aires_composantes binaire))).
Proof.
  intros Hw Hh. pose proof (zone_interieure_positive case Hw Hh) as Hpos.
  unfold analyser_case.
  destruct (zone_interieure case) as [[[x_int y_int] w_int] h_int]. simpl in Hpos.
  split; [done|].
  destruct (Z.eqb_spec (w_int * h_int) 0) as [E|_]; [lia|].
  set (binaire := interieur image x_int y_int w_int h_int).
  set (ink_ratio := (inject_Z (count_nonzero binaire) / inject_Z (w_int * h_int))%Q).
  set (f := fun a : Z => Qlt_bool (inject_Z (w_int * h_int) * 0.1) (inject_Z a)).
  assert (Hex : Exists (fun a => (inject_Z (w_int * h_int) * 0.1 < inject_Z a)%Q)
                       (aires_composantes binaire)
                <-> (1 <= length (List.filter f (aires_composantes binaire)))%nat).
  { symmetry. apply filter_length_Exists. intros a.
    unfold f. apply Qlt_bool_iff. }
  unfold SEUIL_REMPLISSAGE, MIN_COMPOSANTES.
  destruct (Qlt_bool 0.5 ink_ratio) eqn:E1.
  - apply Qlt_bool_iff in E1. eexists. split; [done|].
    refine (conj _ (conj _ (conj _ (conj _ (conj _ _))))).
    + split; [done|eauto].
    + intros Heq q _. rewrite Heq in E1. by apply Qlt_irrefl in E1.
    + split; [by intros [n ?]|by intros [? _]].
    + split; [done|by intros [? _]].
    + by intros q [= <-].
    + done.
  - assert (~ (0.5 < ink_ratio)%Q) as Hn.
    { rewrite <- Qlt_bool_iff. congruence. }
    destruct (Nat.leb_spec 1 (length (List.filter f (aires_composantes binaire))))
      as [E2|E2]; (eexists; split; [done|]);
      refine (conj _ (conj _ (conj _ (conj _ (conj _ _))))); try done.
    + split; [by intros [q ?]|done].
    + split; [intros _; split; [done|by apply Hex]|eauto].
    + split; [done|]. intros [_ H]. destruct H. by apply Hex.
    + by intros n [= <-].
    + split; [by intros [q ?]|done].
    + split; [by intros [n ?]|]. intros [_ H%Hex]. lia.
    + split; [intros _; split; [done|]|done]. intros H%Hex. lia.
Qed.

Lemma C2_analyser_case_witness :
  exists r,
    analyser_case
      (Build_Image 1200 800 None (fun _ => []) (fun _ _ => false) (fun _ => []) []
                   (fun _ _ _ _ => Build_Interieur 200 [150; 3]))
      (Build_Case 0 0 40 40 1600) = Ok r
    /\ forall q, r <> noire q.
Proof.
  pose proof (C2_analyser_case
                (Build_Image 1200 800 None (fun _ => []) (fun _ _ => false) (fun _ => []) []
                             (fun _ _ _ _ => Build_Interieur 200 [150; 3]))
                (Build_Case 0 0 40 40 1600) eq_refl eq_refl) as H.
  change (zone_interieure (Build_Case 0 0 40 40 1600)) with (10, 10, 20, 20) in H.
  cbv beta iota zeta in H.
  destruct H as (_ & r & Hr & _ & H05 & _).
  exists r. split; [exact Hr|]. apply H05. reflexivity.
Defined.

(** ** Scale scoring *)

Lemma liste_min_elem (d : Z) (l : list Z) : liste_min d l ∈ d :: l.
Proof.
  unfold liste_min. revert d. induction l as [|a l IH]; intros d; simpl.
  - apply list_elem_of_here.
  - specialize (IH (Z.min d a)).
    apply elem_of_cons in IH as [->|IH].
    + destruct (Z.min_spec d a) as [[_ ->]|[_ ->]];
        [apply list_elem_of_here|apply list_elem_of_further, list_elem_of_here].
    + by do 2 apply list_elem_of_further.
Qed.

Lemma liste_min_minore (d : Z) (l : list Z) (v : Z) :
  v ∈ d :: l -> liste_min d l <= v.
Proof.
  unfold liste_min. revert d. induction l as [|a l IH]; intros d Hv; simpl.
  - apply elem_of_cons in Hv as [->|Hv]; [lia|by apply elem_of_nil in Hv].
  - pose proof (liste_min_le (Z.min d a) l) as Hle. unfold liste_min in Hle.
    apply elem_of_cons in Hv as [->|Hv]; [lia|].
    apply elem_of_cons in Hv as [->|Hv]; [lia|].
    apply IH. by apply list_elem_of_further.
Qed.

(** [l.index(v)] is the first position of [l] that holds [v]. *)
Lemma py_index_premier (v : Z) (l : list Z) :
  v ∈ l ->
  l !! py_index v l = Some v
  /\ forall j, (j < py_index v l)%nat -> l !! j <> Some v.
Proof.
  induction l as [|a l IH]; intros Hv; [by apply elem_of_nil in Hv|].
  simpl. destruct (Z.eqb_spec a v) as [->|Hne].
  - split; [done|]. intros j Hj. lia.
  - apply elem_of_cons in Hv as [->|Hv]; [done|].
    destruct (IH Hv) as [H1 H2]. split; [done|].
    intros [|j] Hj; simpl; [congruence|]. apply H2. lia.
Qed.

Lemma distances_lookup x0 pas cx (k : nat) :
  (k < 6)%nat ->
  distances x0 pas cx !! k = Some (Z.abs (cx - x_grad x0 pas k)).
Proof.
  intros Hk. unfold distances.
  change (map ?f ?l) with (f <$> l).
  by rewrite list_lookup_fmap, lookup_seq_lt.
Qed.

(** The score of a blob is the graduation nearest to its centre, the
    lowest one when several are as near. *)
Lemma score_proche_spec x0 pas (b : Blob) :
  (score_proche x0 pas b < 6)%nat
  /\ (forall k, (k < 6)%nat ->
        Z.abs (b_cx b - x_grad x0 pas (score_proche x0 pas b))
        <= Z.abs (b_cx b - x_grad x0 pas k))
  /\ (forall k, (k < score_proche x0 pas b)%nat ->
        Z.abs (b_cx b - x_grad x0 pas (score_proche x0 pas b))
        < Z.abs (b_cx b - x_grad x0 pas k)).
Proof.
  unfold score_proche.
  set (ds := distances x0 pas (b_cx b)).
  assert (Hm : py_min ds ∈ ds) by apply liste_min_elem.
  assert (Hmin : forall v, v ∈ ds -> py_min ds <= v) by apply liste_min_minore.
  destruct (py_index_premier _ _ Hm) as [H1 H2].
  set (s := py_index (py_min ds) ds) in *.
  assert (Hs : (s < 6)%nat) by (by apply lookup_lt_Some in H1).
  assert (Hds : py_min ds = Z.abs (b_cx b - x_grad x0 pas s)).
  { unfold ds in H1 at 1. rewrite distances_lookup in H1 by done.
    by injection H1. }
  assert (Hk : forall k, (k < 6)%nat ->
                         py_min ds <= Z.abs (b_cx b - x_grad x0 pas k)).
  { intros k Hk. apply Hmin. eapply list_elem_of_lookup_2.
    by apply distances_lookup. }
  rewrite <- Hds. split_and!; [done|done|].
  intros k Hks. specialize (H2 k Hks). specialize (Hk k ltac:(lia)).
  pose proof (distances_lookup x0 pas (b_cx b) k ltac:(lia)) as Ek.
  fold ds in Ek. rewrite Ek in H2.
  assert (py_min ds <> Z.abs (b_cx b - x_grad x0 pas k))
    by (intros E; apply H2; by rewrite E).
  lia.
Qed.

Section Scores.
Context (score : Blob -> nat).

Lemma existsb_eqb_elem (s : nat) (scores : list nat) :
  existsb (Nat.eqb s) scores = true <-> s ∈ scores.
Proof.
  rewrite existsb_exists, list_elem_of_In. split.
  - by intros (t & Ht & ->%Nat.eqb_eq).
  - intros Hs. exists s. by rewrite Nat.eqb_refl.
Qed.

Lemma scores_detectes_elem (blobs : list Blob) (acc : list nat) (s : nat) :
  s ∈ fold_left (ajouter_score score) blobs acc
  <-> s ∈ acc \/ exists b, b ∈ blobs /\ score b = s.
Proof.
  revert acc. induction blobs as [|b blobs IH]; intros acc; simpl.
  - split; [by left|]. intros [?|(b & Hb & _)]; [done|].
    by apply elem_of_nil in Hb.
  - rewrite IH. unfold ajouter_score at 1.
    destruct (existsb (Nat.eqb (score b)) acc) eqn:E.
    + apply existsb_eqb_elem in E. split.
      * intros [?|(b' & Hb' & <-)]; [by left|].
        right. exists b'. split; [by apply list_elem_of_further|done].
      * intros [?|(b' & Hb' & <-)]; [by left|].
        apply elem_of_cons in Hb' as [->|Hb']; [by left|].
        right. by exists b'.
    + rewrite elem_of_app, list_elem_of_singleton. split.
      * intros [[?| ->]|(b' & Hb' & <-)]; [by left| |].
        -- right. exists b. split; [apply list_elem_of_here|done].
        -- right. exists b'. split; [by apply list_elem_of_further|done].
      * intros [?|(b' & Hb' & <-)]; [by left; left|].
        apply elem_of_cons in Hb' as [->|Hb']; [by left; right|].
        right. by exists b'.
Qed.

Lemma scores_detectes_NoDup (blobs : list Blob) (acc : list nat) :
  NoDup acc -> NoDup (fold_left (ajouter_score score) blobs acc).
Proof.
  revert acc. induction blobs as [|b blobs IH]; intros acc Hacc; simpl; [done|].
  apply IH. unfold ajouter_score.
  destruct (existsb (Nat.eqb (score b)) acc) eqn:E; [done|].
  apply NoDup_app. split_and!; [done| |apply NoDup_singleton].
  intros s Hs ->%list_elem_of_singleton.
  apply existsb_eqb_elem in Hs. congruence.
Qed.
End Scores.

Lemma sorted_leb_croissant (l : list nat) :
  NoDup l -> StronglySorted lt (sorted Nat.leb l).
Proof.
  intros Hl.
  assert (Hs : StronglySorted (fun a b => Nat.leb a b = true) (sorted Nat.leb l)).
  { apply sorted_StronglySorted.
    - intros a b. rewrite Nat.leb_gt, Nat.leb_le. lia.
    - intros a b c. rewrite !Nat.leb_le. lia. }
  assert (Hn : NoDup (sorted Nat.leb l)) by (by rewrite sorted_Permutation).
  induction Hs as [|a l' Hs IH Ha]; [constructor|].
  apply NoDup_cons in Hn as [Hna Hn].
  constructor; [by apply IH|].
  apply Forall_forall. intros b Hb.
  rewrite Forall_forall in Ha. specialize (Ha b Hb). apply Nat.leb_le in Ha.
  assert (a <> b) by (intros ->; done). lia.
Qed.

Lemma x_grad_cinquieme (x0 largeur : Z) (k : nat) :
  x_grad x0 (inject_Z largeur / 5) k = x0 + Z.quot (Z.of_nat k * largeur) 5.
Proof.
  unfold x_grad, int_Q. simpl. by rewrite Z.mul_1_r.
Qed.

Lemma blobs_crayonnages_elem (comps : list Composante) (b : Blob) :
  b ∈ List.filter (fun b => LARGEUR_MAX_CHIFFRE <? b_w b)
        (map blob_de_composante
             (List.filter (fun c => AIRE_MIN_BLOB <? CC_STAT_AREA c) comps))
  <-> exists c, c ∈ comps /\ 200 < CC_STAT_AREA c /\ 45 < CC_STAT_WIDTH c
                /\ b = blob_de_composante c.
Proof.
  rewrite list_elem_of_In, filter_In, in_map_iff.
  setoid_rewrite filter_In. setoid_rewrite <- list_elem_of_In.
  unfold LARGEUR_MAX_CHIFFRE, AIRE_MIN_BLOB. split.
  - intros [(c & <- & Hc & Ha) Hw]. simpl in Hw. exists c.
    split_and!; [done|lia|lia|done].
  - intros (c & Hc & Ha & Hw & ->). split; [|simpl; lia].
    exists c. split_and!; [done|done|lia].
Qed.

(** The properties of [score_proche_spec] name one graduation only. *)
Lemma score_proche_unique (d : nat -> Z) (s t : nat) :
  (forall k, (k < 6)%nat -> d s <= d k) ->
  (forall k, (k < s)%nat -> d s < d k) ->
  (t < 6)%nat ->
  (forall k, (k < 6)%nat -> d t <= d k) ->
  (forall k, (k < t)%nat -> d t < d k) ->
  (s < 6)%nat -> s = t.
Proof.
  intros Hs1 Hs2 Ht Ht1 Ht2 Hs.
  destruct (Nat.lt_trichotomy s t) as [H|[H|H]]; [|done|].
  - specialize (Ht2 s H). specialize (Hs1 t Ht). lia.
  - specialize (Hs2 t H). specialize (Ht1 s Hs). lia.
Qed.

Lemma StronglySorted_lt_singleton (l : list nat) (v : nat) :
  StronglySorted lt l -> (forall s, s ∈ l <-> s = v) -> l = [v].
Proof.
  intros Hl Hv. destruct l as [|a l].
  - exfalso. eapply elem_of_nil, Hv. reflexivity.
  - assert (a = v) as -> by (apply Hv, list_elem_of_here).
    destruct l as [|b l]; [done|]. exfalso.
    assert (b = v) as -> by (apply Hv, list_elem_of_further, list_elem_of_here).
    apply StronglySorted_inv in Hl as [_ Hl].
    apply Forall_cons in Hl as [Hl _]. lia.
Qed.

(** The scores that [coter_echelle] returns, when it returns. *)
Lemma coter_echelle_scores (image : Image) (e : Echelle) (scores : list nat) :
  coter_echelle image (Some e) = Ok scores ->
  scores
  = sorted Nat.leb
      (fold_left
         (ajouter_score
            (score_proche (pt_x (gauche e) - Z.max 0 (pt_x (gauche e) - MARGE_CROP))
                          (inject_Z (pt_x (droite e) - pt_x (gauche e)) / 5)))
         (List.filter (fun b => LARGEUR_MAX_CHIFFRE <? b_w b)
            (map blob_de_composante
               (List.filter (fun c => AIRE_MIN_BLOB <? CC_STAT_AREA c)
                            (composantes_bande image e))))
         []).
Proof.
  unfold coter_echelle. cbv zeta.
  destruct (_ || _); [done|]. destruct (_ =? 0); [done|]. by intros [= <-].
Qed.

(** A scale that lies in the page, more than 40 rows above its bottom edge,
    is scored: the crop and the band under it have pixels. *)
Lemma coter_echelle_lisible (image : Image) (e : Echelle) :
  echelle_lisible image e -> exists scores, coter_echelle image (Some e) = Ok scores.
Proof.
  intros (Hx & Hw & Hy & Hh).
  unfold coter_echelle. cbv zeta.
  unfold MARGE_CROP_HAUT, MARGE_CROP_BAS, MARGE_CROP, EPAISSEUR_SUPPRESSION,
    OFFSET_BANDE, HAUTEUR_BANDE.
  rewrite (eq_refl : 250 / 2 = 125).
  set (xg := pt_x (gauche e)) in *. set (xd := pt_x (droite e)) in *.
  set (y := pt_y (gauche e)) in *.
  set (H := hauteur image) in *. set (W := largeur image) in *.
  set (hc := longueur_tranche H (0 `max` (y - 125)) (H `min` (y + 250))).
  set (wc := longueur_tranche W (0 `max` (xg - 250)) (W `min` (xd + 250))).
  assert (Hhc : hc = Z.min H (y + 250) - Z.max 0 (y - 125)).
  { unfold hc, longueur_tranche, indice_tranche. cas_des_tests; lia. }
  assert (Hwc : 0 < wc).
  { unfold wc, longueur_tranche, indice_tranche. cas_des_tests; lia. }
  destruct (Z.eqb_spec hc 0); [lia|]. destruct (Z.eqb_spec wc 0); [lia|]. simpl.
  match goal with |- context [longueur_tranche ?n ?a ?b =? 0] =>
    assert (0 < longueur_tranche n a b) as Hb
      by (unfold longueur_tranche, indice_tranche; cas_des_tests; lia);
    destruct (Z.eqb_spec (longueur_tranche n a b) 0); [lia|] end.
  by eexists.
Qed.

(** A scale found in the last 40 rows of the page is not: the band under
    it has no pixel, and the search for its components raises. *)
Lemma coter_echelle_bas_de_page (image : Image) (e : Echelle) :
  0 <= pt_x (gauche e) < pt_x (droite e) -> pt_x (droite e) < largeur image ->
  0 <= pt_y (gauche e) < hauteur image -> hauteur image <= pt_y (gauche e) + 40 ->
  coter_echelle image (Some e) = Leve Cv2Error.
Proof.
  intros Hx Hw Hy Hh.
  unfold coter_echelle. cbv zeta.
  unfold MARGE_CROP_HAUT, MARGE_CROP_BAS, MARGE_CROP, EPAISSEUR_SUPPRESSION,
    OFFSET_BANDE, HAUTEUR_BANDE.
  rewrite (eq_refl : 250 / 2 = 125).
  set (xg := pt_x (gauche e)) in *. set (xd := pt_x (droite e)) in *.
  set (y := pt_y (gauche e)) in *.
  set (H := hauteur image) in *. set (W := largeur image) in *.
  set (hc := longueur_tranche H (0 `max` (y - 125)) (H `min` (y + 250))).
  set (wc := longueur_tranche W (0 `max` (xg - 250)) (W `min` (xd + 250))).
  assert (Hhc : hc = Z.min H (y + 250) - Z.max 0 (y - 125)).
  { unfold hc, longueur_tranche, indice_tranche. cas_des_tests; lia. }
  assert (Hwc : 0 < wc).
  { unfold wc, longueur_tranche, indice_tranche. cas_des_tests; lia. }
  destruct (Z.eqb_spec hc 0); [lia|]. destruct (Z.eqb_spec wc 0); [lia|]. simpl.
  match goal with |- context [longueur_tranche ?n ?a ?b =? 0] =>
    assert (longueur_tranche n a b = 0) as Hb
      by (unfold longueur_tranche, indice_tranche; cas_des_tests; lia);
    rewrite Hb end.
  done.
Qed.

(** C3. A scale that lies in the page, more than 40 rows above its bottom
    edge, is scored.  Among the components of the band with an area above
    200, those of width 45 or less never give a score, wherever they lie;
    each one wider than 45 gives the graduation nearest to the [x] of its
    centroid (the lowest when two are as near), the six graduations
    standing a fifth of the width of the scale apart.  The scores come back
    in strictly ascending order, so each at most once, all between 0 and 5.
    On a scale at least 5 pixels wide, wide blobs centred on graduation 3
    give [3]; a scale found by the detection is at least 20 pixels wide. *)
Theorem C3_coter_echelle (image : Image) (e : Echelle) :
  let x_gauche := pt_x (gauche e) in
  let largeur_totale := pt_x (droite e) - x_gauche in
  let x_gauche_crop := x_gauche - Z.max 0 (x_gauche - 250) in
  let graduation := x_grad x_gauche_crop (inject_Z largeur_totale / 5) in
  let crayonnage := fun c => 200 < CC_STAT_AREA c /\ 45 < CC_STAT_WIDTH c in
  let cx := fun c => int_Q (fst (centroid c)) in
  (echelle_lisible image e ->
   exists scores, coter_echelle image (Some e) = Ok scores)
  /\ forall scores,
  coter_echelle image (Some e) = Ok scores ->
  (forall k : nat,
     graduation k = x_gauche_crop + Z.quot (Z.of_nat k * largeur_totale) 5)
  /\ (forall s,
        s ∈ scores
        <-> exists c,
              c ∈ composantes_bande image e /\ crayonnage c
              /\ (s < 6)%nat
              /\ (forall k, (k < 6)%nat ->
                    Z.abs (cx c - graduation s) <= Z.abs (cx c - graduation k))
              /\ (forall k, (k < s)%nat ->
                    Z.abs (cx c - graduation s) < Z.abs (cx c - graduation k)))
  /\ StronglySorted lt scores
  /\ Forall (fun s => (s < 6)%nat) scores
  /\ ((forall c, c ∈ composantes_bande image e ->
         200 < CC_STAT_AREA c -> CC_STAT_WIDTH c <= 45) ->
      scores = [])
  /\ (5 <= largeur_totale ->
      (exists c, c ∈ composantes_bande image e /\ crayonnage c) ->
      (forall c, c ∈ composantes_bande image e -> crayonnage c ->
         cx c = graduation 3%nat) ->
      scores = [3%nat])
  /\ (detecter_echelle_seule image = Some e -> 20 <= largeur_totale).
Proof.
  intros x_gauche largeur_totale x_gauche_crop graduation crayonnage cx.
  split; [apply coter_echelle_lisible|].
  intros scores Hscores. apply coter_echelle_scores in Hscores.
  change MARGE_CROP with 250 in Hscores.
  fold x_gauche x_gauche_crop largeur_totale in Hscores.
  set (pas := (inject_Z largeur_totale / 5)%Q) in *.
  assert (Hgrad : forall k : nat,
            graduation k = x_gauche_crop + Z.quot (Z.of_nat k * largeur_totale) 5)
    by (intros k; apply x_grad_cinquieme).
  assert (Helem : forall s,
            s ∈ scores
            <-> exists c, c ∈ composantes_bande image e /\ crayonnage c
                          /\ score_proche x_gauche_crop pas (blob_de_composante c) = s).
  { intros s. rewrite Hscores.
    rewrite sorted_Permutation, scores_detectes_elem, elem_of_nil. split.
    - intros [[]|(b & (c & Hc & Ha & Hw & ->)%blobs_crayonnages_elem & Hs)].
      by exists c.
    - intros (c & Hc & [Ha Hw] & Hs). right. exists (blob_de_composante c).
      split; [|done]. apply blobs_crayonnages_elem. by exists c. }
  assert (Hiff : forall s,
            s ∈ scores
            <-> exists c,
                c ∈ composantes_bande image e /\ crayonnage c
                /\ (s < 6)%nat
                /\ (forall k, (k < 6)%nat ->
                      Z.abs (cx c - graduation s) <= Z.abs (cx c - graduation k))
                /\ (forall k, (k < s)%nat ->
                      Z.abs (cx c - graduation s) < Z.abs (cx c - graduation k))).
  { intros s. rewrite Helem. split.
    - intros (c & Hc & Hcr & <-). exists c. split; [done|]. split; [done|].
      apply (score_proche_spec x_gauche_crop pas (blob_de_composante c)).
    - intros (c & Hc & Hcr & Hs & H1 & H2). exists c. split; [done|]. split; [done|].
      destruct (score_proche_spec x_gauche_crop pas (blob_de_composante c))
        as (Ht & Ht1 & Ht2).
      symmetry.
      by apply (score_proche_unique (fun k => Z.abs (cx c - graduation k))). }
  assert (Hsorted : StronglySorted lt scores).
  { rewrite Hscores. apply sorted_leb_croissant.
    apply scores_detectes_NoDup. constructor. }
  split; [done|]. split; [done|]. split; [done|]. split; [|split; [|split]].
  - apply Forall_forall. intros s Hs. apply Hiff in Hs.
    by destruct Hs as (c & _ & _ & ? & _).
  - intros Hdigits. destruct scores as [|s l] eqn:E; [done|]. exfalso.
    assert (Hs : s ∈ s :: l) by apply list_elem_of_here.
    apply Hiff in Hs as (c & Hc & [Ha Hw] & _).
    specialize (Hdigits c Hc Ha). lia.
  - intros Hlarge (c0 & Hc0 & Hcr0) Hcentre.
    assert (Hdistinct : forall s, (s < 6)%nat -> graduation s = graduation 3%nat ->
                                  s = 3%nat).
    { intros s Hs. rewrite !Hgrad.
      do 6 (destruct s as [|s]; [simpl (Z.of_nat _);
        rewrite !Z.quot_div_nonneg by lia; Z.to_euclidean_division_equations; lia|]).
      lia. }
    apply StronglySorted_lt_singleton; [done|].
    intros s. rewrite Hiff. split.
    + intros (c & Hc & Hcr & Hs & H1 & _).
      specialize (H1 3%nat ltac:(lia)). rewrite (Hcentre c Hc Hcr) in H1.
      apply Hdistinct; [done|lia].
    + intros ->. exists c0. split; [done|]. split; [done|]. split; [lia|].
      rewrite (Hcentre c0 Hc0 Hcr0). split.
      * intros k _. lia.
      * intros k Hk.
        assert (graduation k <> graduation 3%nat)
          by (intros E; apply Hdistinct in E; lia).
        lia.
  - intros He. apply detecter_echelle_seule_largeur in He.
    unfold largeur_totale, x_gauche. lia.
Qed.

Lemma C3_coter_echelle_witness :
  coter_echelle
    (Build_Image 1200 1100 None (fun _ => []) (fun _ _ => false)
       (fun _ => [Build_Composante 235 10 30 40 300 (250.2, 30.5)%Q;
                  Build_Composante 520 5 60 50 900 (550.4, 30)%Q])
       [] (fun _ _ _ _ => Build_Interieur 0 []))
    (Some (Build_Echelle (Build_Point 300 1000) (Build_Point 800 1000)))
  = Ok [3%nat].
Proof.
  pose proof (C3_coter_echelle
    (Build_Image 1200 1100 None (fun _ => []) (fun _ _ => false)
       (fun _ => [Build_Composante 235 10 30 40 300 (250.2, 30.5)%Q;
                  Build_Composante 520 5 60 50 900 (550.4, 30)%Q])
       [] (fun _ _ _ _ => Build_Interieur 0 []))
    (Build_Echelle (Build_Point 300 1000) (Build_Point 800 1000))) as H.
  cbv zeta in H. destruct H as [H1 H2].
  assert (L : echelle_lisible
    (Build_Image 1200 1100 None (fun _ => []) (fun _ _ => false)
       (fun _ => [Build_Composante 235 10 30 40 300 (250.2, 30.5)%Q;
                  Build_Composante 520 5 60 50 900 (550.4, 30)%Q])
       [] (fun _ _ _ _ => Build_Interieur 0 []))
    (Build_Echelle (Build_Point 300 1000) (Build_Point 800 1000)))
    by (unfold echelle_lisible; simpl; lia).
  destruct (H1 L) as [scores Hs]. rewrite Hs. f_equal.
  destruct (H2 scores Hs) as (_ & _ & _ & _ & _ & H & _).
  apply H.
  - simpl. lia.
  - exists (Build_Composante 520 5 60 50 900 (550.4, 30)%Q).
    split; [apply list_elem_of_further, list_elem_of_here|simpl; lia].
  - intros c Hc [Ha Hw]. simpl in Hc.
    apply elem_of_cons in Hc as [->|Hc]; [simpl in Hw; lia|].
    apply list_elem_of_singleton in Hc as ->. reflexivity.
Defined.

(** ** Matching against the template *)

Lemma existsb_proche (ligne_vides : list Case) (x_attendu : Z) :
  existsb (proche x_attendu) ligne_vides = true
  <-> exists c, c ∈ ligne_vides /\ Z.abs (x c - x_attendu) < 200.
Proof.
  rewrite existsb_exists. unfold proche, TOLERANCE_X.
  setoid_rewrite list_elem_of_In. setoid_rewrite Z.ltb_lt. done.
Qed.

Lemma manquantes_boucle_elem ligne_vides dx (cases_template : list CaseTemplate) :
  forall idx i,
    i ∈ manquantes_boucle ligne_vides dx idx cases_template
    <-> exists k t, i = (idx + k)%nat /\ cases_template !! k = Some t
                    /\ existsb (proche (t_x t + dx)) ligne_vides = false.
Proof.
  induction cases_template as [|t0 reste IH]; intros idx i; simpl.
  - rewrite elem_of_nil. split; [done|]. by intros (k & t & _ & ? & _).
  - assert (Hreste : i ∈ manquantes_boucle ligne_vides dx (S idx) reste
                     <-> exists k t, i = (idx + S k)%nat /\ reste !! k = Some t
                         /\ existsb (proche (t_x t + dx)) ligne_vides = false).
    { rewrite IH. split; intros (k & t & -> & ? & ?); exists k, t;
        (split; [lia|done]). }
    destruct (existsb (proche (t_x t0 + dx)) ligne_vides) eqn:E.
    + rewrite Hreste. split.
      * intros (k & t & -> & ? & ?). by exists (S k), t.
      * intros ([|k] & t & -> & Hk & Ht); simpl in Hk.
        -- injection Hk as <-. congruence.
        -- by exists k, t.
    + rewrite elem_of_cons, Hreste. split.
      * intros [->|(k & t & -> & ? & ?)].
        -- exists 0%nat, t0. split; [lia|done].
        -- by exists (S k), t.
      * intros ([|k] & t & -> & Hk & Ht); simpl in Hk.
        -- left. lia.
        -- right. by exists k, t.
Qed.

(** The indices reported missing are those of the expected boxes that no
    empty box of the row is near. *)
Lemma trouver_cases_template_manquantes_elem ligne_vides cases_template dx i :
  i ∈ trouver_cases_template_manquantes ligne_vides cases_template dx
  <-> exists t, cases_template !! i = Some t
                /\ existsb (proche (t_x t + dx)) ligne_vides = false.
Proof.
  unfold trouver_cases_template_manquantes.
  destruct ligne_vides as [|c l].
  - rewrite elem_of_seq. simpl. split.
    + intros [_ Hi]. apply lookup_lt_is_Some in Hi as [t Ht]. by exists t.
    + intros (t & Ht%lookup_lt_Some & _). lia.
  - rewrite manquantes_boucle_elem. split.
    + intros (k & t & -> & ? & ?). by exists t.
    + intros (t & ? & ?). by exists i, t.
Qed.

Lemma reponse_ordonnee_spec ligne_vides dx y_ligne indices_manquants idx case_tmpl :
  index (reponse_ordonnee ligne_vides dx y_ligne indices_manquants idx case_tmpl) = idx
  /\ (reponse (reponse_ordonnee ligne_vides dx y_ligne indices_manquants idx case_tmpl)
      = cochee <-> idx ∈ indices_manquants).
Proof.
  unfold reponse_ordonnee. rewrite <- existsb_eqb_elem.
  destruct (existsb (Nat.eqb idx) indices_manquants); [done|].
  by destruct (List.find _ ligne_vides).
Qed.

Lemma reponses_boucle_lookup ligne_vides dx y_ligne indices_manquants
    (cases_template : list CaseTemplate) :
  forall idx i,
    reponses_boucle ligne_vides dx y_ligne indices_manquants idx cases_template !! i
    = reponse_ordonnee ligne_vides dx y_ligne indices_manquants (idx + i)
        <$> cases_template !! i.
Proof.
  induction cases_template as [|t reste IH]; intros idx i; simpl; [done|].
  destruct i as [|i]; simpl.
  - by rewrite Nat.add_0_r.
  - rewrite IH. by replace (S idx + i)%nat with (idx + S i)%nat by lia.
Qed.

Lemma reponses_boucle_length ligne_vides dx y_ligne indices_manquants
    (cases_template : list CaseTemplate) idx :
  length (reponses_boucle ligne_vides dx y_ligne indices_manquants idx cases_template)
  = length cases_template.
Proof.
  revert idx. induction cases_template as [|t reste IH]; intros idx; simpl; [done|].
  by rewrite IH.
Qed.

(** The answers of one question: one per expected box, in the order of the
    template; checked exactly when no empty box of the row is within the
    tolerance of the expected position, empty otherwise. *)
Lemma reponses_question_spec ligne_vides (cases_template : list CaseTemplate) dx :
  length (reponses_question ligne_vides cases_template dx) = length cases_template
  /\ forall idx case_tmpl,
       cases_template !! idx = Some case_tmpl ->
       exists r,
         reponses_question ligne_vides cases_template dx !! idx = Some r
         /\ index r = idx
         /\ (reponse r = cochee
             <-> forall c, c ∈ ligne_vides ->
                           ~ Z.abs (x c - (t_x case_tmpl + dx)) < 200)
         /\ (reponse r = vide_
             <-> exists c, c ∈ ligne_vides
                           /\ Z.abs (x c - (t_x case_tmpl + dx)) < 200).
Proof.
  unfold reponses_question. split; [apply reponses_boucle_length|].
  intros idx t Ht. rewrite reponses_boucle_lookup, Ht. simpl.
  eexists. split; [done|].
  match goal with
  | |- context [reponse_ordonnee ?a ?b ?c ?d ?e ?f] =>
      destruct (reponse_ordonnee_spec a b c d e f) as [Hi Hr];
      set (r := reponse_ordonnee a b c d e f) in *
  end.
  split; [done|].
  rewrite trouver_cases_template_manquantes_elem in Hr.
  assert (Hc : reponse r = cochee
               <-> existsb (proche (t_x t + dx)) ligne_vides = false).
  { rewrite Hr. split.
    - intros (t' & Ht' & ?). congruence.
    - intros ?. by exists t. }
  split.
  - rewrite Hc, <- not_true_iff_false, existsb_proche. split.
    + intros H c Hc' Hn. apply H. by exists c.
    + intros H (c & Hc' & Hn). by apply (H c).
  - rewrite <- existsb_proche. destruct (reponse r).
    + destruct (existsb _ ligne_vides); [|done].
      by assert (true = false) by (by apply Hc).
    + destruct (existsb _ ligne_vides) eqn:E; [done|].
      by assert (vide_ = cochee) by (by apply Hc).
Qed.

Lemma q_id_inj (n m : nat) : q_id n = q_id m -> n = m.
Proof.
  unfold q_id. intros H.
  apply (inj (String.append "question_")) in H. by apply (inj pretty) in H.
Qed.

Section Questions.
Context (lignes_vides : list (list Case)) (contenu : gmap string Question) (dx : Z).


End Questions.


(** What the record of a page holds once its scale is found and its boxes
    are classified. *)
Lemma analyser_page_resultat (image : Image) (page_num : nat)
    (template_page : TemplatePage) (e : Echelle) (scores_echelle : list nat)
    (cases_vides : list Case) :
  detecter_echelle_seule image = Some e ->
  coter_echelle image (Some e) = Ok scores_echelle ->
  cases_vides_de image = Ok cases_vides ->
  analyser_page image page_num template_page
  = Ok (PageResultat page_num
          (calculer_dx (echelle template_page) (Some e))
          scores_echelle
          (analyser_questions (regrouper_par_lignes cases_vides 50)
             (contenu template_page)
             (calculer_dx (echelle template_page) (Some e)))).
Proof.
  intros He Hs Hc. unfold analyser_page. rewrite He, Hs. simpl. rewrite Hc.
  reflexivity.
Qed.



(** ** The pages of a batch *)

Lemma pour_chaque_Ok {A B : Type} (f : A -> resultat B) (l : list A) :
  (forall a, a ∈ l -> exists b, f a = Ok b) ->
  exists bs, pour_chaque f l = Ok bs.
Proof.
  induction l as [|a l IH]; intros Hf; simpl; [by eexists|].
  destruct (Hf a) as [b ->]; [apply list_elem_of_here|].
  destruct IH as [bs ->]; [|by eexists].
  intros a' Ha'. apply Hf. by apply list_elem_of_further.
Qed.

Lemma pour_chaque_lookup {A B : Type} (f : A -> resultat B) (l : list A) (bs : list B) :
  pour_chaque f l = Ok bs ->
  length bs = length l
  /\ forall i a, l !! i = Some a -> exists b, bs !! i = Some b /\ f a = Ok b.
Proof.
  revert bs. induction l as [|a l IH]; intros bs; simpl.
  - intros [= <-]. split; [done|]. by intros i a Hi.
  - destruct (f a) as [b|err] eqn:E; [|done]. simpl.
    destruct (pour_chaque f l) as [bs'|err]; [|done]. simpl.
    intros [= <-]. destruct (IH bs' eq_refl) as [Hlen Hl].
    split; [simpl; by rewrite Hlen|].
    intros [|i] a' Hi; simpl in Hi.
    + injection Hi as <-. by exists b.
    + by apply Hl.
Qed.

Lemma enumerate_lookup {A : Type} (l : list A) (debut i : nat) (a : A) :
  l !! i = Some a -> enumerate l debut !! i = Some ((debut + i)%nat, a).
Proof.
  unfold enumerate. revert debut i.
  induction l as [|a0 l IH]; intros debut i Hi; [done|].
  destruct i as [|i]; simpl in *.
  - injection Hi as ->. by rewrite Nat.add_0_r.
  - rewrite (IH (S debut) i Hi). do 2 f_equal. lia.
Qed.

Lemma dedupliquer_boucle_elem dmin (l acc : list Case) (c : Case) :
  c ∈ fold_left (dedupliquer_pas dmin) l acc -> c ∈ acc \/ c ∈ l.
Proof.
  revert acc. induction l as [|a l IH]; intros acc; simpl; [by left|].
  intros [Hc|Hc]%IH.
  - unfold dedupliquer_pas in Hc. destruct (existsb _ acc); [by left|].
    apply elem_of_app in Hc as [Hc|Hc]; [by left|].
    apply list_elem_of_singleton in Hc as ->. right. apply list_elem_of_here.
  - right. by apply list_elem_of_further.
Qed.

(** A box that reaches the classifier has a positive width and height. *)
Lemma detecter_cases_completes_positive (contours : list Contour) (c : Case) :
  c ∈ detecter_cases_completes contours -> 0 < w c /\ 0 < h c.
Proof.
  unfold detecter_cases_completes. rewrite sorted_Permutation.
  rewrite dedupliquer_cases_boucle.
  intros [Hc|Hc]%dedupliquer_boucle_elem; [by apply elem_of_nil in Hc|].
  rewrite sorted_Permutation in Hc.
  apply list_elem_of_fmap in Hc as (cnt & -> & Hcnt).
  apply list_elem_of_In, filter_In in Hcnt as [_ Hk].
  by apply garder_contour_case in Hk as (_ & ? & ? & _).
Qed.

Lemma analyser_case_Ok (image : Image) (case : Case) :
  0 < w case -> 0 < h case -> exists a, analyser_case image case = Ok a.
Proof.
  intros Hw Hh. pose proof (zone_interieure_positive case Hw Hh) as Hpos.
  unfold analyser_case.
  destruct (zone_interieure case) as [[[x_int y_int] w_int] h_int]. simpl in Hpos.
  destruct (Z.eqb_spec (w_int * h_int) 0) as [E|_]; [lia|].
  destruct (Qlt_bool _ _); [by eexists|].
  destruct (_ <=? _)%nat; by eexists.
Qed.

(** The classification of the boxes of a page never raises. *)
Lemma cases_vides_de_Ok (image : Image) :
  exists cases_vides, cases_vides_de image = Ok cases_vides.
Proof.
  unfold cases_vides_de.
  destruct (pour_chaque_Ok
              (fun case => a ← analyser_case image case; Ok (case, a))
              (detecter_cases_completes (contours image))) as [bs ->];
    [|by eexists].
  intros c [Hw Hh]%detecter_cases_completes_positive.
  destruct (analyser_case_Ok image c Hw Hh) as [a ->]. by eexists.
Qed.





Lemma enumerate_elem {A : Type} (l : list A) (debut : nat) (n : nat) (a : A) :
  (n, a) ∈ enumerate l debut -> exists i, n = (debut + i)%nat /\ l !! i = Some a.
Proof.
  unfold enumerate. revert debut.
  induction l as [|a0 l IH]; intros debut; simpl.
  - by intros ?%elem_of_nil.
  - intros [[= -> ->]|H]%elem_of_cons.
    + exists 0%nat. split; [lia|done].
    + destruct (IH (S debut) H) as (i & -> & Hi). exists (S i). split; [lia|done].
Qed.

(** A batch in which every scale that is found can be scored is read
    through: one record per page, the one that the page gives alone. *)
Lemma main_pages_lookup (template_page : TemplatePage) (pages : list Image) :
  (forall i image e,
     pages !! i = Some image -> detecter_echelle_seule image = Some e ->
     echelle_lisible image e) ->
  exists resultats,
    main_pages template_page pages = Ok resultats
    /\ length resultats = length pages
    /\ forall i image, pages !! i = Some image ->
         exists record, resultats !! i = Some record
                        /\ analyser_page image (S i) template_page = Ok record.
Proof.
  intros Hlisible. unfold main_pages.
  destruct (pour_chaque_Ok
              (fun np : nat * Image => analyser_page np.2 np.1 template_page)
              (enumerate pages 1)) as [resultats Hres].
  { intros [n image] (i & -> & Hi)%enumerate_elem. simpl.
    destruct (detecter_echelle_seule image) as [e|] eqn:He.
    - destruct (coter_echelle_lisible image e (Hlisible i image e Hi He))
        as [scores Hs].
      destruct (cases_vides_de_Ok image) as [cv Hcv].
      eexists. by eapply analyser_page_resultat.
    - unfold analyser_page. rewrite He. by eexists. }
  exists resultats. split; [done|].
  apply pour_chaque_lookup in Hres as [Hlen Hres]. split.
  { rewrite Hlen. unfold enumerate. rewrite length_combine, length_seq. lia. }
  intros i image Hi.
  destruct (Hres i (S i, image)) as (record & Hr & Hrec);
    [by apply (enumerate_lookup pages 1 i image)|].
  by exists record.
Qed.




(** * Further properties *)

(** ** Deduplication, further *)

(** Any two boxes that deduplication returns have their centres at
    [distance_min] or more from each other, and the one returned first has
    the larger area (or the same). *)
Theorem dedupliquer_cases_separees (cases : list Case) (distance_min : Z)
    (i j : nat) (u v : Case) :
  (i < j)%nat ->
  dedupliquer_cases cases distance_min !! i = Some u ->
  dedupliquer_cases cases distance_min !! j = Some v ->
  aire v <= aire u
  /\ (0 < distance_min ->
      (inject_Z (distance_min * distance_min) <= distance2 u v)%Q).
Proof.
  intros Hij Hi Hj. split.
  - pose proof (StronglySorted_lookup _ _ i j u v
                  (dedupliquer_cases_aires cases distance_min) Hij Hi Hj) as H.
    unfold aire_decroissante in H. lia.
  - intros Hd.
    pose proof (StronglySorted_lookup _ _ i j u v
                  (dedupliquer_cases_paires cases distance_min) Hij Hi Hj) as H.
    simpl in H. apply distance_inferieure_false in H; [|done].
    by rewrite distance2_sym.
Qed.

Lemma dedupliquer_cases_separees_witness :
  aire (Build_Case 100 0 40 40 1500) <= aire (Build_Case 0 0 40 40 1600)
  /\ (0 < 10 ->
      (inject_Z (10 * 10)
       <= distance2 (Build_Case 0 0 40 40 1600) (Build_Case 100 0 40 40 1500))%Q).
Proof.
  apply (dedupliquer_cases_separees
           [Build_Case 100 0 40 40 1500; Build_Case 3 0 40 40 1550;
            Build_Case 0 0 40 40 1600] 10 0 1); [lia|reflexivity|reflexivity].
Defined.

(** Deduplication drops a box only for a box it returns: every box of the
    input is returned, or lies nearer than [distance_min] to a returned box
    whose area is at least its own. *)
Theorem dedupliquer_cases_couverture (cases : list Case) (distance_min : Z)
    (c : Case) :
  c ∈ cases ->
  c ∈ dedupliquer_cases cases distance_min
  \/ exists u, u ∈ dedupliquer_cases cases distance_min
               /\ aire c <= aire u
               /\ 0 < distance_min
               /\ (distance2 c u < inject_Z (distance_min * distance_min))%Q.
Proof.
  intros Hc. rewrite dedupliquer_cases_boucle.
  assert (Hs : c ∈ sorted aire_decroissante cases) by (by rewrite sorted_Permutation).
  pose proof (sorted_StronglySorted aire_decroissante aire_decroissante_total
                aire_decroissante_trans cases) as Hsorted.
  apply list_elem_of_split in Hs as (avant & apres & E). rewrite E in *.
  rewrite fold_left_app. simpl.
  set (acceptees := fold_left (dedupliquer_pas distance_min) avant []).
  destruct (dedupliquer_boucle_prefixe distance_min apres
              (dedupliquer_pas distance_min acceptees c)) as [suite ->].
  unfold dedupliquer_pas.
  destruct (existsb _ acceptees) eqn:Ex.
  - right. apply existsb_exists in Ex as (u & Hu & Hnear).
    apply list_elem_of_In in Hu. exists u.
    split; [apply elem_of_app; by left|].
    assert (Hua : u ∈ avant).
    { unfold acceptees in Hu. apply dedupliquer_boucle_elem in Hu as [Hu|Hu]; [|done].
      by apply elem_of_nil in Hu. }
    pose proof (StronglySorted_avant _ _ _ _ Hsorted) as Hav.
    rewrite Forall_forall in Hav. specialize (Hav u Hua).
    unfold aire_decroissante in Hav.
    unfold distance_inferieure in Hnear.
    apply andb_true_iff in Hnear as [Hd Hnear]. apply Qlt_bool_iff in Hnear.
    split_and!; [lia|lia|done].
  - left. rewrite !elem_of_app. left. right. apply list_elem_of_here.
Qed.

Lemma dedupliquer_cases_couverture_witness :
  Build_Case 3 0 40 40 1550
    ∈ dedupliquer_cases [Build_Case 3 0 40 40 1550; Build_Case 0 0 40 40 1600] 10
  \/ exists u,
       u ∈ dedupliquer_cases [Build_Case 3 0 40 40 1550; Build_Case 0 0 40 40 1600] 10
       /\ 1550 <= aire u
       /\ 0 < 10
       /\ (distance2 (Build_Case 3 0 40 40 1550) u < inject_Z (10 * 10))%Q.
Proof.
  apply (dedupliquer_cases_couverture
           [Build_Case 3 0 40 40 1550; Build_Case 0 0 40 40 1600] 10
           (Build_Case 3 0 40 40 1550)).
  apply list_elem_of_here.
Defined.

(** Deduplication invents nothing and repeats nothing: what it returns is
    part of the input, box for box, in the order of the input sorted by
    descending area. *)
Theorem dedupliquer_cases_partie (cases : list Case) (distance_min : Z) :
  dedupliquer_cases cases distance_min `sublist_of` sorted aire_decroissante cases
  /\ dedupliquer_cases cases distance_min ⊆+ cases
  /\ (length (dedupliquer_cases cases distance_min) <= length cases)%nat
  /\ (cases <> [] -> dedupliquer_cases cases distance_min <> []).
Proof.
  pose proof (dedupliquer_cases_sous_liste cases distance_min) as Hsub.
  assert (Hm : dedupliquer_cases cases distance_min ⊆+ cases).
  { apply sublist_submseteq in Hsub. by rewrite sorted_Permutation in Hsub. }
  split; [done|]. split; [done|]. split; [by apply submseteq_length|].
  intros Hne. rewrite dedupliquer_cases_boucle.
  destruct (sorted aire_decroissante cases) as [|c l] eqn:E.
  { by apply sorted_nil_inv in E. }
  simpl. unfold dedupliquer_pas at 2. simpl.
  destruct (dedupliquer_boucle_prefixe distance_min l [c]) as [suite ->]. done.
Qed.

Lemma dedupliquer_cases_partie_witness :
  dedupliquer_cases [Build_Case 3 0 40 40 1550; Build_Case 0 0 40 40 1600] 10 <> [].
Proof.
  apply (dedupliquer_cases_partie
           [Build_Case 3 0 40 40 1550; Build_Case 0 0 40 40 1600] 10).
  discriminate.
Defined.

(** Deduplicating twice changes nothing more. *)
Theorem dedupliquer_cases_idempotent (cases : list Case) (distance_min : Z) :
  dedupliquer_cases (dedupliquer_cases cases distance_min) distance_min
  = dedupliquer_cases cases distance_min.
Proof.
  rewrite (dedupliquer_cases_boucle (dedupliquer_cases cases distance_min)).
  rewrite sorted_deja_trie by apply dedupliquer_cases_aires.
  apply (dedupliquer_boucle_separees_id distance_min _ []).
  apply dedupliquer_cases_paires.
Qed.

(** ** The detection pipeline *)

(** What [detecter_cases_completes] hands to the page analysis: boxes in
    reading order (by [y], then by [x]), any two of them with centres at 10
    pixels or more from each other, each one the bounding rectangle of a
    contour that passed the shape test, with a positive width and height
    and an area entry between 1000 and 2500. *)
Theorem detecter_cases_completes_spec (contours : list Contour) :
  StronglySorted (fun a b => y a < y b \/ (y a = y b /\ x a <= x b))
                 (detecter_cases_completes contours)
  /\ StronglySorted (fun u v => (100 <= distance2 u v)%Q)
                    (detecter_cases_completes contours)
  /\ Forall (fun c => exists cnt,
                 cnt ∈ contours
                 /\ garder_contour 1000 2500 0.85 1.4 cnt = true
                 /\ c = case_de_contour cnt)
            (detecter_cases_completes contours)
  /\ Forall (fun c => 0 < w c /\ 0 < h c /\ 1000 <= aire c <= 2500)
            (detecter_cases_completes contours).
Proof.
  assert (Hsrc : forall c, c ∈ detecter_cases_completes contours ->
                   exists cnt, cnt ∈ contours
                               /\ garder_contour 1000 2500 0.85 1.4 cnt = true
                               /\ c = case_de_contour cnt).
  { unfold detecter_cases_completes. intros c. rewrite sorted_Permutation.
    rewrite dedupliquer_cases_boucle.
    intros [Hc|Hc]%dedupliquer_boucle_elem; [by apply elem_of_nil in Hc|].
    rewrite sorted_Permutation in Hc.
    apply list_elem_of_fmap in Hc as (cnt & -> & Hcnt).
    apply list_elem_of_In, filter_In in Hcnt as [Hin Hk].
    exists cnt. split; [by apply list_elem_of_In|done]. }
  split_and!.
  - unfold detecter_cases_completes.
    eapply StronglySorted_impl;
      [|apply (sorted_StronglySorted ordre_yx ordre_yx_total ordre_yx_trans)].
    unfold ordre_yx. intros a b. simpl. lia.
  - unfold detecter_cases_completes.
    eapply StronglySorted_symetrique;
      [|symmetry; apply sorted_Permutation|].
    + intros a b Hab. by rewrite distance2_sym.
    + eapply StronglySorted_impl; [|apply dedupliquer_cases_paires].
      intros u v Huv. simpl in Huv.
      apply (distance_inferieure_false v u 10) in Huv; [|done].
      by rewrite distance2_sym.
  - apply Forall_forall. exact Hsrc.
  - apply Forall_forall. intros c (cnt & _ & Hk & ->)%Hsrc.
    apply garder_contour_case in Hk as (? & ? & ? & _). done.
Qed.

(** ** Row grouping, further *)

Lemma bien_decoupe_suivantes tol c0 r segs :
  0 <= tol ->
  bien_decoupe tol ((c0 :: r) :: segs) ->
  Forall (fun s => forall v, v ∈ s -> y c0 + tol < y v) segs.
Proof.
  intros Htol H. remember ((c0 :: r) :: segs) as l eqn:El.
  revert c0 r segs El.
  induction H as [c r Hr|c r d0 r' segs' Hr Hd Hsegs IH]; intros c0 r0 segs El.
  - injection El as -> -> <-. constructor.
  - injection El as -> -> <-.
    specialize (IH d0 r' segs' eq_refl).
    assert (Hr' : Forall (fun c => y d0 <= y c <= y d0 + tol) r')
      by (by inversion Hsegs).
    constructor.
    + intros v [->|Hv]%elem_of_cons; [lia|].
      rewrite Forall_forall in Hr'. specialize (Hr' v Hv). lia.
    + eapply Forall_impl; [exact IH|]. simpl. intros s Hs v Hv.
      specialize (Hs v Hv). lia.
Qed.

Lemma bien_decoupe_ordonne tol segs :
  0 <= tol ->
  bien_decoupe tol segs ->
  StronglySorted (fun s1 s2 => forall u v, u ∈ s1 -> v ∈ s2 -> y u < y v) segs
  /\ Forall (fun s => forall u v, u ∈ s -> v ∈ s -> Z.abs (y u - y v) <= tol) segs.
Proof.
  intros Htol H.
  assert (Hin : forall c0 r, Forall (fun c => y c0 <= y c <= y c0 + tol) r ->
                  forall u, u ∈ c0 :: r -> y c0 <= y u <= y c0 + tol).
  { intros c0 r Hr u [->|Hu]%elem_of_cons; [lia|].
    rewrite Forall_forall in Hr. by apply Hr. }
  induction H as [c0 r Hr|c0 r d0 r' segs Hr Hd Hsegs [IH1 IH2]].
  - split; [repeat constructor|]. constructor; [|constructor].
    intros u v Hu Hv.
    pose proof (Hin c0 r Hr u Hu). pose proof (Hin c0 r Hr v Hv). lia.
  - split.
    + constructor; [done|].
      pose proof (bien_decoupe_suivantes tol c0 r _ Htol
                    (bd_suivante tol c0 r d0 r' segs Hr Hd Hsegs)) as Hs.
      eapply Forall_impl; [exact Hs|]. simpl. intros s Hsv u v Hu Hv.
      pose proof (Hin c0 r Hr u Hu). specialize (Hsv v Hv). lia.
    + constructor; [|done]. intros u v Hu Hv.
      pose proof (Hin c0 r Hr u Hu). pose proof (Hin c0 r Hr v Hv). lia.
Qed.

(** With a tolerance that is not negative, the rows come from top to
    bottom without overlap: every box of a row has a smaller [y] than
    every box of a later row, and two boxes of one row differ in [y] by
    the tolerance at most.  Two boxes with the same [y] are thus never put
    in different rows. *)
Theorem regrouper_par_lignes_etagees (cases : list Case) (tolerance_y : Z)
    (i j : nat) (ligne_i ligne_j : list Case) (u v : Case) :
  0 <= tolerance_y ->
  regrouper_par_lignes cases tolerance_y !! i = Some ligne_i ->
  regrouper_par_lignes cases tolerance_y !! j = Some ligne_j ->
  u ∈ ligne_i -> v ∈ ligne_j ->
  ((i < j)%nat -> y u < y v)
  /\ (i = j -> Z.abs (y u - y v) <= tolerance_y)
  /\ (y u = y v -> i = j).
Proof.
  intros Htol Hi Hj Hu Hv.
  destruct cases as [|c cases]; [by destruct i|].
  destruct (regrouper_par_lignes_decoupe (c :: cases) tolerance_y)
    as (segs & E1 & _ & E3); [done|].
  destruct (bien_decoupe_ordonne tolerance_y segs Htol E3) as [Hord Hin].
  rewrite E1 in Hi, Hj.
  change (map ?f ?l) with (f <$> l) in Hi, Hj.
  rewrite list_lookup_fmap in Hi, Hj.
  destruct (segs !! i) as [si|] eqn:Esi; [|done].
  destruct (segs !! j) as [sj|] eqn:Esj; [|done].
  simpl in Hi, Hj. injection Hi as <-. injection Hj as <-.
  rewrite sorted_Permutation in Hu, Hv.
  assert (Hlt : forall a b sa sb ua vb,
            (a < b)%nat -> segs !! a = Some sa -> segs !! b = Some sb ->
            ua ∈ sa -> vb ∈ sb -> y ua < y vb).
  { intros a b sa sb ua vb Hab Ha Hb Hua Hvb.
    by apply (StronglySorted_lookup _ _ a b sa sb Hord Hab Ha Hb). }
  split_and!.
  - intros Hij. by apply (Hlt i j si sj).
  - intros ->. rewrite Esi in Esj. injection Esj as <-.
    rewrite Forall_forall in Hin.
    apply (Hin si); [by eapply list_elem_of_lookup_2|done..].
  - intros Hy. destruct (Nat.lt_trichotomy i j) as [H|[H|H]]; [|done|].
    + pose proof (Hlt i j si sj u v H Esi Esj Hu Hv). lia.
    + pose proof (Hlt j i sj si v u H Esj Esi Hv Hu). lia.
Qed.

Lemma regrouper_par_lignes_etagees_witness :
  ((0 < 1)%nat -> y (Build_Case 300 105 40 40 1600) < y (Build_Case 320 400 40 40 1600))
  /\ (0%nat = 1%nat ->
      Z.abs (y (Build_Case 300 105 40 40 1600) - y (Build_Case 320 400 40 40 1600))
      <= 50)
  /\ (y (Build_Case 300 105 40 40 1600) = y (Build_Case 320 400 40 40 1600) ->
      0%nat = 1%nat).
Proof.
  apply (regrouper_par_lignes_etagees
           [Build_Case 700 100 40 40 1600; Build_Case 300 105 40 40 1600;
            Build_Case 320 400 40 40 1600] 50 0 1
           [Build_Case 300 105 40 40 1600; Build_Case 700 100 40 40 1600]
           [Build_Case 320 400 40 40 1600]).
  - lia.
  - reflexivity.
  - reflexivity.
  - apply list_elem_of_here.
  - apply list_elem_of_here.
Defined.

(** ** Edges of the scale line, further *)

Lemma find_seq_min (f : nat -> bool) (a k g v : nat) :
  List.find f (seq a k) = Some g -> (a <= v < g)%nat -> f v = false.
Proof.
  revert a. induction k as [|k IH]; intros a Hg Hv; simpl in Hg; [done|].
  destruct (f a) eqn:E.
  - injection Hg as <-. lia.
  - destruct (decide (v = a)) as [->|Hne]; [done|].
    apply (IH (S a)); [done|lia].
Qed.

Lemma normaliser_length (colonnes : list Z) :
  length (normaliser colonnes) = length colonnes.
Proof. unfold normaliser. destruct (0 <? _); apply length_map. Qed.

(** The window test away from the threshold and near it. *)
Lemma fenetre_dense_true (arrondi : nat -> bool) (projection : list Q)
    (debut fin : nat) :
  fenetre_dense arrondi projection debut fin = true ->
  (seuil - marge <= moyenne (tranche projection debut fin))%Q.
Proof.
  unfold fenetre_dense. cbv zeta.
  destruct (Qlt_bool (seuil + marge) _) eqn:E1.
  - intros _. apply Qlt_bool_iff in E1. apply Qlt_le_weak.
    eapply Qle_lt_trans; [|exact E1]. by vm_compute.
  - destruct (Qlt_bool _ (seuil - marge)) eqn:E2; [done|].
    intros _. by apply Qlt_bool_false in E2.
Qed.

Lemma fenetre_dense_false (arrondi : nat -> bool) (projection : list Q)
    (debut fin : nat) :
  fenetre_dense arrondi projection debut fin = false ->
  (moyenne (tranche projection debut fin) <= seuil + marge)%Q.
Proof.
  unfold fenetre_dense. cbv zeta.
  destruct (Qlt_bool (seuil + marge) _) eqn:E1; [done|].
  intros _. by apply Qlt_bool_false in E1.
Qed.

Lemma fenetre_dense_exact (arrondi : nat -> bool) (projection : list Q)
    (debut fin : nat) :
  ((seuil + marge < moyenne (tranche projection debut fin))%Q ->
   fenetre_dense arrondi projection debut fin = true)
  /\ ((moyenne (tranche projection debut fin) < seuil - marge)%Q ->
      fenetre_dense arrondi projection debut fin = false).
Proof.
  unfold fenetre_dense. cbv zeta. split.
  - intros H%Qlt_bool_iff. by rewrite H.
  - intros H. destruct (Qlt_bool (seuil + marge) _) eqn:E1.
    + apply Qlt_bool_iff in E1. exfalso.
      apply (Qlt_irrefl (seuil + marge)). eapply Qlt_trans; [exact E1|].
      eapply Qlt_trans; [exact H|]. by vm_compute.
    + apply Qlt_bool_iff in H. by rewrite H.
Qed.

(** When the edges of the scale line are found, the left edge is not
    column 0 and is the first column whose window of 20 passes the density
    test; the right edge is the last column with such a window on its left;
    the two are at least a window apart and inside the page.  A window
    that passes the test has an exact mean density above 0.15 - [marge],
    one that fails it a mean of 0.15 + [marge] at most; a mean above
    0.15 + [marge] passes, a mean under 0.15 - [marge] fails. *)
Theorem trouver_bords_ligne_echelle_Some (arrondi : nat -> bool)
    (colonnes : list Z) (g d : nat) :
  trouver_bords_ligne_echelle arrondi colonnes = Some (g, d) ->
  let dense := fun a : nat =>
    fenetre_dense arrondi (normaliser colonnes) a (a + 20) in
  let densite := fun a : nat =>
    moyenne (tranche (normaliser colonnes) a (a + 20)) in
  (0 < g)%nat /\ (g + 20 <= d)%nat /\ (d < length colonnes)%nat
  /\ dense g = true /\ dense (d - 20)%nat = true
  /\ (forall v, (v < g)%nat -> dense v = false)
  /\ (forall v, (d < v < length colonnes)%nat -> dense (v - 20)%nat = false)
  /\ (0.15 - marge <= densite g)%Q /\ (0.15 - marge <= densite (d - 20)%nat)%Q
  /\ (forall v, (v < g)%nat -> (densite v <= 0.15 + marge)%Q)
  /\ (forall v, (d < v < length colonnes)%nat ->
        (densite (v - 20)%nat <= 0.15 + marge)%Q)
  /\ (forall a, (0.15 + marge < densite a)%Q -> dense a = true)
  /\ (forall a, (densite a < 0.15 - marge)%Q -> dense a = false).
Proof.
  intros H dense densite.
  pose proof (trouver_bords_ligne_echelle_largeur arrondi colonnes g d H) as [Hg Hgd].
  unfold trouver_bords_ligne_echelle in H.
  destruct (chercher_bord_gauche arrondi (normaliser colonnes)) as [g'|] eqn:Eg; [|done].
  destruct (chercher_bord_droit arrondi (normaliser colonnes)) as [d'|] eqn:Ed;
    [|by rewrite andb_false_r in H].
  destruct (vrai (Some g') && vrai (Some d')); [|done].
  injection H as -> ->.
  unfold chercher_bord_gauche in Eg. unfold chercher_bord_droit in Ed.
  rewrite normaliser_length in Eg, Ed. unfold largeur_min in *.
  pose proof (find_some _ _ Eg) as [_ Hfg].
  pose proof (find_some _ _ Ed) as [Hin Hfd].
  apply in_rev, in_seq in Hin.
  assert (Hfen : forall v, (20 <= v)%nat ->
            fenetre_dense arrondi (normaliser colonnes) (v - 20) v = dense (v - 20)%nat).
  { intros v Hv. unfold dense. by replace (v - 20 + 20)%nat with v by lia. }
  rewrite Hfen in Hfd by lia.
  assert (Hgauche : forall v, (v < g)%nat -> dense v = false).
  { intros v Hv. exact (find_seq_min _ _ _ _ v Eg ltac:(lia)). }
  assert (Hdroite : forall v, (d < v < length colonnes)%nat ->
            dense (v - 20)%nat = false).
  { intros v Hv. destruct (dense (v - 20)%nat) eqn:E; [|done].
    rewrite <- Hfen in E by lia.
    pose proof (find_rev_seq_max _ _ _ _ v Ed E). lia. }
  split; [lia|]. split; [lia|]. split; [lia|].
  split; [exact Hfg|]. split; [exact Hfd|].
  split; [exact Hgauche|]. split; [exact Hdroite|].
  split; [by apply (fenetre_dense_true arrondi)|].
  split; [by apply (fenetre_dense_true arrondi)|].
  split; [intros v Hv; by apply (fenetre_dense_false arrondi), Hgauche|].
  split; [intros v Hv; by apply (fenetre_dense_false arrondi), Hdroite|].
  split; intros a Ha; by apply fenetre_dense_exact.
Qed.

Lemma trouver_bords_ligne_echelle_Some_witness :
  (0 < 14)%nat /\ (14 + 20 <= 106)%nat
  /\ (106 < length (repeat 0 30 ++ repeat 1275 60 ++ repeat 0 30))%nat.
Proof.
  pose proof (trouver_bords_ligne_echelle_Some (fun _ => false)
                (repeat 0 30 ++ repeat 1275 60 ++ repeat 0 30) 14 106) as H.
  assert (E : trouver_bords_ligne_echelle (fun _ => false)
                (repeat 0 30 ++ repeat 1275 60 ++ repeat 0 30) = Some (14, 106)%nat)
    by (vm_compute; reflexivity).
  specialize (H E). cbv zeta in H. destruct H as (H1 & H2 & H3 & _).
  split; [exact H1|split; [exact H2|exact H3]].
Defined.

(** Where rounding decides.  The columns of this band carry 0, 3 or 20
    white pixels; the windows that start at columns 10 to 70 hold twenty
    quotients 3/20, an exact mean of 0.15 that is not above the threshold,
    while the sum of their twenty rounded quotients may round above 3.  The
    left edge is column 10 when numpy finds such a window above the
    threshold, and column 71 when it does not. *)
Lemma trouver_bords_ligne_echelle_arrondi :
  trouver_bords_ligne_echelle (fun _ => true)
    (repeat 0 10 ++ repeat 765 80 ++ [5100] ++ repeat 0 30) = Some (10, 96)%nat
  /\ trouver_bords_ligne_echelle (fun _ => false)
       (repeat 0 10 ++ repeat 765 80 ++ [5100] ++ repeat 0 30) = Some (71, 96)%nat.
Proof. split; by vm_compute. Qed.

(** ** The scale line *)

Lemma tranche_elem {A : Type} (l : list A) (debut fin : nat) (a : A) :
  In a (tranche l debut fin)
  <-> exists k, (debut <= k < fin)%nat /\ l !! k = Some a.
Proof.
  unfold tranche. rewrite <- list_elem_of_In.
  change (firstn ?n ?l) with (take n l). change (skipn ?n ?l) with (drop n l).
  rewrite elem_of_take. setoid_rewrite lookup_drop. split.
  - intros (i & Hi & Hlt). exists (debut + i)%nat. split; [lia|done].
  - intros (k & Hk & Hl). exists (k - debut)%nat.
    split; [|lia]. by replace (debut + (k - debut))%nat with k by lia.
Qed.

(** A column counts as content on row [y] when one of the rows [y - 5] to
    [y + 4] of the page has a white pixel in it. *)
Lemma proj_ligne_spec (binary : list (list bool)) (y x : nat) :
  proj_ligne binary y x = true
  <-> exists y' ligne, (y - 5 <= y' < y + 5)%nat
                       /\ binary !! y' = Some ligne /\ nth x ligne false = true.
Proof.
  unfold proj_ligne. rewrite existsb_exists. setoid_rewrite tranche_elem. split.
  - intros (ligne & (k & Hk & Hl) & Hx). exists k, ligne. split; [lia|done].
  - intros (k & ligne & Hk & Hl & Hx). exists ligne. split; [|done].
    exists k. split; [|done]. apply lookup_lt_Some in Hl. lia.
Qed.

Lemma segment_boucle_inv (proj : nat -> bool) (n : nat) :
  exists debut ms x1,
    fold_left (segment_pas proj) (seq 0 n) (None, 0%nat, 0%nat) = (debut, ms, x1)
    /\ match debut with
       | Some d => (d < n)%nat
                   /\ (forall x, (d <= x < n)%nat -> proj x = true)
                   /\ (d = 0%nat \/ proj (d - 1)%nat = false)
       | None => n = 0%nat \/ proj (n - 1)%nat = false
       end
    /\ ((x1 + ms <= n)%nat /\ forall x, (x1 <= x < x1 + ms)%nat -> proj x = true)
    /\ forall a b, (a <= b <= n)%nat ->
         (forall x, (a <= x < b)%nat -> proj x = true) ->
         (b - a <= ms)%nat \/ exists d, debut = Some d /\ (d <= a)%nat.
Proof.
  induction n as [|n (debut & ms & x1 & E & HA & [HB1 HB2] & HC)].
  - exists None, 0%nat, 0%nat. split; [done|]. split; [by left|].
    split; [split; [lia|intros x; lia]|]. intros a b Hab _. left. lia.
  - rewrite seq_S, fold_left_app, E. simpl. unfold segment_pas. cbv zeta.
    destruct (proj n) eqn:Epn; destruct debut as [d|].
    + destruct HA as (Hd & Hrun & Hleft).
      exists (Some d), ms, x1. split; [done|]. split; [|split].
      * split; [lia|split; [|done]]. intros x Hx.
        destruct (decide (x = n)) as [->|?]; [done|]. apply Hrun. lia.
      * split; [lia|done].
      * intros a b Hab Hall. destruct (decide (b <= n)%nat) as [Hb|Hb].
        { apply HC; [lia|done]. }
        destruct (decide (d <= a)%nat) as [Hda|Hda]; [right; by exists d|].
        exfalso. destruct Hleft as [->|Hleft]; [lia|].
        rewrite Hall in Hleft by lia. done.
    + exists (Some n), ms, x1. split; [done|]. split; [|split].
      * split; [lia|split; [|done]]. intros x Hx. by replace x with n by lia.
      * split; [lia|done].
      * intros a b Hab Hall. destruct (decide (b <= n)%nat) as [Hb|Hb].
        { destruct (HC a b) as [?|(d & ? & _)]; [lia|done|by left|done]. }
        destruct (decide (a = S n)) as [->|Ha]; [left; lia|].
        right. exists n. split; [done|].
        destruct (decide (n <= a)%nat) as [?|Hna]; [done|]. exfalso.
        destruct HA as [->|HA]; [lia|]. rewrite Hall in HA by lia. done.
    + destruct HA as (Hd & Hrun & Hleft).
      assert (Hcl : forall a b, (a <= b <= S n)%nat ->
                (forall x, (a <= x < b)%nat -> proj x = true) ->
                (b - a <= ms)%nat \/ (b - a <= n - d)%nat).
      { intros a b Hab Hall. destruct (decide (b <= n)%nat) as [Hb|Hb].
        - destruct (HC a b) as [?|(d' & [= <-] & ?)]; [lia|done|by left|right; lia].
        - destruct (decide (a = S n)) as [->|Ha]; [left; lia|].
          exfalso. rewrite Hall in Epn by lia. done. }
      destruct (Nat.ltb_spec ms (n - d)) as [Hlt|Hge].
      * exists None, (n - d)%nat, d. split; [done|]. split; [|split].
        -- right. by rewrite Nat.sub_0_r.
        -- split; [lia|]. intros x Hx. apply Hrun. lia.
        -- intros a b Hab Hall. left. destruct (Hcl a b Hab Hall); lia.
      * exists None, ms, x1. split; [done|]. split; [|split].
        -- right. by rewrite Nat.sub_0_r.
        -- split; [lia|done].
        -- intros a b Hab Hall. left. destruct (Hcl a b Hab Hall); lia.
    + exists None, ms, x1. split; [done|]. split; [|split].
      * right. by rewrite Nat.sub_0_r.
      * split; [lia|done].
      * intros a b Hab Hall. left. destruct (decide (b <= n)%nat) as [Hb|Hb].
        { destruct (HC a b) as [?|(d & ? & _)]; [lia|done|done|done]. }
        destruct (decide (a = S n)) as [->|Ha]; [lia|].
        exfalso. rewrite Hall in Epn by lia. done.
Qed.

(** The longest run of content columns of a row: where it is, and that no
    run of the row is longer. *)
Lemma plus_long_segment_spec (proj : nat -> bool) (w : nat) :
  ((plus_long_segment proj w).2 + (plus_long_segment proj w).1 <= w)%nat
  /\ (forall x, ((plus_long_segment proj w).2 <= x
                 < (plus_long_segment proj w).2 + (plus_long_segment proj w).1)%nat ->
                proj x = true)
  /\ (forall a b, (a <= b <= w)%nat ->
        (forall x, (a <= x < b)%nat -> proj x = true) ->
        (b - a <= (plus_long_segment proj w).1)%nat).
Proof.
  unfold plus_long_segment.
  destruct (segment_boucle_inv proj w) as (debut & ms & x1 & -> & HA & [HB1 HB2] & HC).
  destruct debut as [d|].
  - destruct HA as (Hd & Hrun & _).
    destruct (Nat.ltb_spec ms (w - d)) as [Hlt|Hge]; simpl.
    + split_and!; [lia|intros x Hx; apply Hrun; lia|].
      intros a b Hab Hall.
      destruct (HC a b Hab Hall) as [?|(d' & [= <-] & ?)]; lia.
    + split_and!; [done|done|].
      intros a b Hab Hall.
      destruct (HC a b Hab Hall) as [?|(d' & [= <-] & ?)]; lia.
  - simpl. split_and!; [done|done|].
    intros a b Hab Hall. by destruct (HC a b Hab Hall) as [?|(d' & ? & ?)].
Qed.

Lemma ligne_boucle_inv (binary : list (list bool)) (w n : nat) :
  exists best max_len,
    fold_left (ligne_pas binary w) (seq 0 n) (None, 0%nat) = (best, max_len)
    /\ (forall y0, (y0 < n)%nat ->
          ((plus_long_segment (proj_ligne binary y0) w).1 <= max_len)%nat)
    /\ match best with
       | None => max_len = 0%nat
       | Some (x1, y, x2, y') =>
           y' = y /\ (y < n)%nat /\ (0 < max_len)%nat /\ x2 = (x1 + max_len)%nat
           /\ plus_long_segment (proj_ligne binary y) w = (max_len, x1)
           /\ forall y0, (y0 < y)%nat ->
                ((plus_long_segment (proj_ligne binary y0) w).1 < max_len)%nat
       end.
Proof.
  induction n as [|n (best & max_len & E & Hall & Hbest)].
  - exists None, 0%nat. split; [done|]. split; [intros y0; lia|done].
  - rewrite seq_S, fold_left_app, E. simpl. unfold ligne_pas.
    destruct (plus_long_segment (proj_ligne binary n) w) as [ms x1m] eqn:Ep.
    destruct (Nat.ltb_spec max_len ms) as [Hlt|Hge].
    + exists (Some (x1m, n, (x1m + ms)%nat, n)), ms. split; [done|]. split.
      * intros y0 Hy0. destruct (decide (y0 = n)) as [->|?]; [by rewrite Ep|].
        specialize (Hall y0 ltac:(lia)). lia.
      * split_and!; [done|lia|lia|done|done|].
        intros y0 Hy0. specialize (Hall y0 Hy0). lia.
    + exists best, max_len. split; [done|]. split.
      * intros y0 Hy0. destruct (decide (y0 = n)) as [->|?]; [by rewrite Ep|].
        apply Hall. lia.
      * destruct best as [[[[x1 y] x2] y']|]; [|done].
        destruct Hbest as (? & ? & ? & ? & ? & ?). split_and!; [done|lia|done..].
Qed.

(** [trouver_ligne_echelle] returns the longest run of content columns of
    the page: a run of row [y], inside the page, at least as long as every
    run of every row and strictly longer than every run of the rows above
    [y].  It returns nothing exactly when no row has a content column. *)
Theorem trouver_ligne_echelle_spec (binary : list (list bool)) (w : nat) :
  match trouver_ligne_echelle binary w with
  | Some (x1, y, x2, y') =>
      y' = y /\ (y < length binary)%nat /\ (x1 < x2 <= w)%nat
      /\ (forall x, (x1 <= x < x2)%nat -> proj_ligne binary y x = true)
      /\ (forall y0 a b,
            (y0 < length binary)%nat -> (a <= b <= w)%nat ->
            (forall x, (a <= x < b)%nat -> proj_ligne binary y0 x = true) ->
            (b - a <= x2 - x1)%nat)
      /\ (forall y0 a b,
            (y0 < y)%nat -> (a <= b <= w)%nat ->
            (forall x, (a <= x < b)%nat -> proj_ligne binary y0 x = true) ->
            (b - a < x2 - x1)%nat)
  | None =>
      forall y0 x, (y0 < length binary)%nat -> (x < w)%nat ->
                   proj_ligne binary y0 x = false
  end.
Proof.
  unfold trouver_ligne_echelle.
  destruct (ligne_boucle_inv binary w (length binary))
    as (best & max_len & -> & Hall & Hbest).
  simpl. destruct best as [[[[x1 y] x2] y']|].
  - destruct Hbest as (-> & Hy & Hpos & -> & Ep & Hfirst).
    pose proof (plus_long_segment_spec (proj_ligne binary y) w) as (H1 & H2 & _).
    rewrite Ep in H1, H2. simpl in H1, H2.
    split_and!; [done|done|lia|lia|done| |].
    + intros y0 a b Hy0 Hab Hrun.
      pose proof (plus_long_segment_spec (proj_ligne binary y0) w) as (_ & _ & H3).
      specialize (H3 a b Hab Hrun). specialize (Hall y0 Hy0). lia.
    + intros y0 a b Hy0 Hab Hrun.
      pose proof (plus_long_segment_spec (proj_ligne binary y0) w) as (_ & _ & H3).
      specialize (H3 a b Hab Hrun). specialize (Hfirst y0 Hy0). lia.
  - subst max_len. intros y0 x Hy0 Hx.
    destruct (proj_ligne binary y0 x) eqn:Epx; [exfalso|done].
    pose proof (plus_long_segment_spec (proj_ligne binary y0) w) as (_ & _ & H3).
    specialize (H3 x (S x) ltac:(lia)). specialize (Hall y0 Hy0).
    assert (S x - x <= 0)%nat; [|lia].
    etrans; [apply H3|done]. intros x' Hx'. by replace x' with x by lia.
Qed.

Lemma trouver_ligne_echelle_spec_witness :
  proj_ligne [[false; true; true; false]; [false; false; false; false]] 0 1 = true.
Proof.
  pose proof (trouver_ligne_echelle_spec
                [[false; true; true; false]; [false; false; false; false]] 4) as H.
  change (trouver_ligne_echelle
            [[false; true; true; false]; [false; false; false; false]] 4)
    with (Some (1, 0, 3, 0)%nat) in H.
  destruct H as (_ & _ & _ & H & _). apply H. lia.
Defined.

(** ** The grey rectangle *)

Lemma combine_seq_snoc {A : Type} (l : list A) (v : A) (a : nat) :
  combine (seq a (length (l ++ [v]))) (l ++ [v])
  = combine (seq a (length l)) l ++ [((a + length l)%nat, v)].
Proof.
  revert a. induction l as [|u l IH]; intros a; simpl.
  - by rewrite Nat.add_0_r.
  - rewrite IH. simpl. by rewrite Nat.add_succ_r.
Qed.

(** The state of the loop over the rows once all are seen: an open zone is
    dark to the last row; the best zone so far is a dark run closed by a
    light row, and [longueur_max] is its length. *)
Lemma zone_boucle_inv (s : float) (l : list float) :
  exists zone lm md mf,
    fold_left (zone_pas s) (combine (seq 0 (length l)) l) (None, 0%nat, None, None)
    = (zone, lm, md, mf)
    /\ (forall d, zone = Some d ->
          (d < length l)%nat
          /\ forall i, (d <= i < length l)%nat -> PrimFloat.ltb (nth i l 0%float) s = true)
    /\ match md, mf with
       | Some a, Some b =>
           (a < b)%nat /\ (b < length l)%nat /\ lm = (b - a)%nat
           /\ (forall i, (a <= i < b)%nat -> PrimFloat.ltb (nth i l 0%float) s = true)
           /\ PrimFloat.ltb (nth b l 0%float) s = false
       | None, None => lm = 0%nat
       | _, _ => False
       end.
Proof.
  induction l as [|v l (zone & lm & md & mf & E & HA & HB)] using rev_ind.
  - exists None, 0%nat, None, None. split; [done|]. split; [done|done].
  - rewrite combine_seq_snoc, fold_left_app, E. simpl.
    rewrite length_app. simpl.
    assert (Hnth : forall i, (i < length l)%nat -> nth i (l ++ [v]) 0%float = nth i l 0%float).
    { intros i Hi. by apply app_nth1. }
    assert (Hlast : nth (length l) (l ++ [v]) 0%float = v).
    { rewrite app_nth2 by lia. by rewrite Nat.sub_diag. }
    assert (HB' : match md, mf with
       | Some a, Some b =>
           (a < b)%nat /\ (b < length l + 1)%nat /\ lm = (b - a)%nat
           /\ (forall i, (a <= i < b)%nat -> PrimFloat.ltb (nth i (l ++ [v]) 0%float) s = true)
           /\ PrimFloat.ltb (nth b (l ++ [v]) 0%float) s = false
       | None, None => lm = 0%nat
       | _, _ => False
       end).
    { destruct md as [a|], mf as [b|]; try done.
      destruct HB as (? & ? & ? & Hd & Hl). split_and!; [done|lia|done| |].
      - intros i Hi. rewrite Hnth by lia. by apply Hd.
      - by rewrite Hnth. }
    unfold zone_pas. simpl. destruct (PrimFloat.ltb v s) eqn:Ev.
    + destruct zone as [d|].
      * exists (Some d), lm, md, mf. split; [done|]. split; [|done].
        intros d' [= <-]. destruct (HA d eq_refl) as [Hd Hrun]. split; [lia|].
        intros i Hi. destruct (decide (i = length l)) as [->|?]; [by rewrite Hlast|].
        rewrite Hnth by lia. apply Hrun. lia.
      * exists (Some (length l)), lm, md, mf. split; [done|]. split; [|done].
        intros d' [= <-]. split; [lia|]. intros i Hi.
        replace i with (length l) by lia. by rewrite Hlast.
    + destruct zone as [d|].
      * destruct (HA d eq_refl) as [Hd Hrun].
        destruct (Nat.ltb_spec lm (length l - d)) as [Hlt|Hge].
        -- exists None, (length l - d)%nat, (Some d), (Some (length l)).
           split; [done|]. split; [done|].
           split_and!; [done|lia|done| |by rewrite Hlast].
           intros i Hi. rewrite Hnth by lia. apply Hrun. lia.
        -- exists None, lm, md, mf. split; [done|]. split; [done|done].
      * exists None, lm, md, mf. split; [done|]. split; [done|done].
Qed.

Lemma trouver_rectangle_gris_inv (h w : Z) (intensites : list float) (r : Z * Z * Z * Z) :
  trouver_rectangle_gris h w intensites = Some r ->
  exists debut fin a b : nat,
    r = (0, Z.of_nat debut + int_Q (inject_Z h * 0.5), w,
         Z.of_nat fin - Z.of_nat debut)
    /\ (debut + 200 <= fin <= length intensites)%nat
    /\ (forall i, (debut <= i < fin)%nat ->
          PrimFloat.ltb (nth i intensites 0%float) (seuil_gris intensites) = true)
    /\ (a + 200 <= b)%nat /\ (b < length intensites)%nat
    /\ (forall i, (a <= i < b)%nat ->
          PrimFloat.ltb (nth i intensites 0%float) (seuil_gris intensites) = true)
    /\ PrimFloat.ltb (nth b intensites 0%float) (seuil_gris intensites) = false.
Proof.
  unfold trouver_rectangle_gris.
  destruct (zone_boucle_inv (seuil_gris intensites) intensites)
    as (zone & lm & md & mf & -> & HA & HB).
  assert (Hclos : (200 <= lm)%nat ->
            exists a b : nat,
              md = Some a /\ mf = Some b /\ lm = (b - a)%nat
              /\ (a + 200 <= b)%nat /\ (b < length intensites)%nat
              /\ (forall i, (a <= i < b)%nat ->
                    PrimFloat.ltb (nth i intensites 0%float) (seuil_gris intensites) = true)
              /\ PrimFloat.ltb (nth b intensites 0%float) (seuil_gris intensites) = false).
  { intros Hlm. destruct md as [a|], mf as [b|]; try done; [|lia].
    destruct HB as (? & ? & ? & ? & ?). exists a, b.
    split_and!; [done|done|done|lia|done|done|done]. }
  destruct zone as [d|].
  - destruct (HA d eq_refl) as [Hd Hrun].
    destruct (Nat.ltb_spec lm (length intensites - d)) as [Hlt|Hge].
    + destruct (Nat.ltb_spec lm 200) as [?|H200]; [done|].
      intros [= <-]. destruct (Hclos H200) as (a & b & _ & _ & _ & ? & ? & ? & ?).
      exists d, (length intensites), a, b.
      split_and!; [done|lia|lia|done|done|done|done|done].
    + destruct md as [a|], mf as [b|]; try done.
      destruct (Nat.ltb_spec lm 200) as [?|H200]; [done|].
      intros [= <-].
      destruct (Hclos H200) as (a' & b' & [= <-] & [= <-] & ? & ? & ? & ? & ?).
      exists a, b, a, b.
      split_and!; [done|lia|lia|done|done|done|done|done].
  - destruct md as [a|], mf as [b|]; try done.
    destruct (Nat.ltb_spec lm 200) as [?|H200]; [done|].
    intros [= <-].
    destruct (Hclos H200) as (a' & b' & [= <-] & [= <-] & ? & ? & ? & ? & ?).
    exists a, b, a, b.
    split_and!; [done|lia|lia|done|done|done|done|done].
Qed.

(** A rectangle that is returned starts at column 0, spans the width of
    the page, lies in the lower half, is at least 200 rows high, and all
    its rows are dark: their mean is under the threshold that the code
    computes. *)
Theorem trouver_rectangle_gris_Some (h w : Z) (intensites : list float)
    (x0 y_haut w' h_rect : Z) :
  trouver_rectangle_gris h w intensites = Some (x0, y_haut, w', h_rect) ->
  x0 = 0 /\ w' = w /\ 200 <= h_rect
  /\ exists debut : nat,
       y_haut = Z.of_nat debut + int_Q (inject_Z h * 0.5)
       /\ Z.of_nat debut + h_rect <= Z.of_nat (length intensites)
       /\ forall i : nat,
            Z.of_nat debut <= Z.of_nat i < Z.of_nat debut + h_rect ->
            PrimFloat.ltb (nth i intensites 0%float) (seuil_gris intensites) = true.
Proof.
  intros (debut & fin & a & b & [= -> -> -> ->] & Hlen & Hdark & _)%
         trouver_rectangle_gris_inv.
  split_and!; [done|done|lia|].
  exists debut. split_and!; [done|lia|].
  intros i Hi. apply Hdark. lia.
Qed.

Lemma trouver_rectangle_gris_Some_witness :
  0 = 0 /\ 800 = 800 /\ 200 <= 250
  /\ exists debut : nat,
       500 = Z.of_nat debut + int_Q (inject_Z 1000 * 0.5)
       /\ Z.of_nat debut + 250
          <= Z.of_nat (length (repeat 100%float 250 ++ repeat 255%float 250))
       /\ forall i : nat,
            Z.of_nat debut <= Z.of_nat i < Z.of_nat debut + 250 ->
            PrimFloat.ltb
              (nth i (repeat 100%float 250 ++ repeat 255%float 250) 0%float)
              (seuil_gris (repeat 100%float 250 ++ repeat 255%float 250)) = true.
Proof.
  apply (trouver_rectangle_gris_Some 1000 800
           (repeat 100%float 250 ++ repeat 255%float 250) 0 500 800 250).
  vm_compute. reflexivity.
Defined.

(** A rectangle is returned only when some dark run of at least 200 rows
    is closed by a light row: the length of a dark zone that reaches the
    last row is never recorded.  So a zone that the code finds dark down to
    its last row gives no rectangle, however high it is. *)
Theorem trouver_rectangle_gris_zone_fermee (h w : Z) (intensites : list float) :
  (forall r, trouver_rectangle_gris h w intensites = Some r ->
     exists a b : nat,
       (a + 200 <= b)%nat /\ (b < length intensites)%nat
       /\ (forall i, (a <= i < b)%nat ->
             PrimFloat.ltb (nth i intensites 0%float) (seuil_gris intensites) = true)
       /\ PrimFloat.ltb (nth b intensites 0%float) (seuil_gris intensites) = false)
  /\ ((forall i, (i < length intensites)%nat ->
         PrimFloat.ltb (nth i intensites 0%float) (seuil_gris intensites) = true) ->
      trouver_rectangle_gris h w intensites = None).
Proof.
  assert (H : forall r, trouver_rectangle_gris h w intensites = Some r ->
     exists a b : nat,
       (a + 200 <= b)%nat /\ (b < length intensites)%nat
       /\ (forall i, (a <= i < b)%nat ->
             PrimFloat.ltb (nth i intensites 0%float) (seuil_gris intensites) = true)
       /\ PrimFloat.ltb (nth b intensites 0%float) (seuil_gris intensites) = false).
  { intros r (_ & _ & a & b & _ & _ & _ & ? & ? & Hd & Hl)%trouver_rectangle_gris_inv.
    by exists a, b. }
  split; [done|].
  intros Hdark. destruct (trouver_rectangle_gris h w intensites) as [r|] eqn:E; [|done].
  destruct (H r eq_refl) as (a & b & _ & Hb & _ & Hl).
  specialize (Hdark b Hb). congruence.
Qed.

Lemma trouver_rectangle_gris_zone_fermee_witness :
  (exists a b : nat,
     (a + 200 <= b)%nat
     /\ (b < length (repeat 100%float 250 ++ repeat 255%float 250))%nat)
  /\ trouver_rectangle_gris 1000 800 (repeat 100%float 300) = None.
Proof.
  split.
  - destruct (proj1 (trouver_rectangle_gris_zone_fermee 1000 800
                       (repeat 100%float 250 ++ repeat 255%float 250))
                    (0, 500, 800, 250)) as (a & b & Ha & Hb & _).
    + vm_compute. reflexivity.
    + exists a, b. split; [exact Ha|exact Hb].
  - apply (proj2 (trouver_rectangle_gris_zone_fermee 1000 800 (repeat 100%float 300))).
    intros i Hi. rewrite repeat_length in Hi.
    rewrite nth_repeat_lt by lia. vm_compute. reflexivity.
Defined.

(** Where rounding decides.  The median of these row means is the binary64
    value of 1/267, and row 250 holds the binary64 value of 34043/267: it
    lies under half the exact sum of the median and 255, and not under the
    threshold of the code, whose sum is rounded.  The code finds row 250
    light, and returns the 250 rows above it. *)
Lemma trouver_rectangle_gris_arrondi :
  trouver_rectangle_gris 1000 800
    (repeat (1 / 267)%float 250 ++ [(34043 / 267)%float] ++ repeat (1 / 267)%float 50)
  = Some (0, 500, 800, 250).
Proof. by vm_compute. Qed.

(** ** The edges of the rectangle and the six landmarks *)

Lemma plus_de_80_pourcent (n : nat) :
  Qlt_bool 0.8 (inject_Z (Z.of_nat n) / inject_Z (Z.of_nat min_gris)) = true
  <-> (160 < n)%nat.
Proof.
  rewrite Qlt_bool_iff. unfold Qlt, Qdiv, Qmult, Qinv. simpl. lia.
Qed.

Lemma tranche_app {A : Type} (l : list A) (a b c : nat) :
  (a <= b <= c)%nat -> tranche l a c = tranche l a b ++ tranche l b c.
Proof.
  intros H. unfold tranche.
  change (firstn ?n ?l) with (take n l). change (skipn ?n ?l) with (drop n l).
  replace (c - a)%nat with ((b - a) + (c - b))%nat by lia.
  replace (drop b l) with (drop (b - a) (drop a l))
    by (rewrite drop_drop; f_equal; lia).
  generalize (drop a l) (b - a)%nat (c - b)%nat. clear.
  intros L n m. revert L. induction n as [|n IH]; intros L; simpl; [done|].
  destruct L as [|u L]; simpl; [by destruct m|]. by rewrite IH.
Qed.

Lemma nb_sombres_app (s : float) (l1 l2 : list float) :
  nb_sombres s (l1 ++ l2) = (nb_sombres s l1 + nb_sombres s l2)%nat.
Proof. unfold nb_sombres. by rewrite List.filter_app, length_app. Qed.

Lemma nb_sombres_zero (s : float) (l : list float) (a b : nat) :
  (forall v, (a <= v < b)%nat -> PrimFloat.ltb (nth v l 0%float) s = false) ->
  nb_sombres s (tranche l a b) = 0%nat.
Proof.
  intros H. unfold nb_sombres.
  destruct (List.filter _ (tranche l a b)) as [|u k] eqn:E; [done|exfalso].
  assert (Hu : In u (List.filter (fun v => PrimFloat.ltb v s) (tranche l a b)))
    by (rewrite E; by left).
  apply filter_In in Hu as [Hu Hdark].
  apply tranche_elem in Hu as (v & Hv & Hl).
  specialize (H v Hv). rewrite (nth_lookup_Some _ _ _ _ Hl) in H. congruence.
Qed.

Lemma zone_grise_ordre (s : float) (l : list float) (g d : nat) :
  List.find (fun x => zone_grise s l x x (x + min_gris)) (seq 0 (length l - min_gris))
  = Some g ->
  zone_grise s l d (d - min_gris) d = true ->
  (min_gris < d)%nat ->
  (g < d)%nat.
Proof.
  intros Eg Hd Hmin. unfold min_gris in *.
  pose proof (find_some _ _ Eg) as [Hing _]. apply in_seq in Hing.
  unfold zone_grise in Hd. apply andb_true_iff in Hd as [Hdd Hnb].
  apply plus_de_80_pourcent in Hnb.
  destruct (List.find (fun v => PrimFloat.ltb (nth v l 0%float) s) (seq (d - 200) 200))
    as [x0|] eqn:Ex.
  - pose proof (find_some _ _ Ex) as [Hin0 Hdark0]. apply in_seq in Hin0.
    destruct (decide (x0 < length l - 200)%nat) as [Hr|Hr]; [|lia].
    assert (Hq : zone_grise s l x0 x0 (x0 + 200) = true).
    { unfold zone_grise. rewrite Hdark0. simpl. apply plus_de_80_pourcent.
      rewrite (tranche_app l (d - 200) x0 d) in Hnb by lia.
      rewrite nb_sombres_app in Hnb.
      rewrite (nb_sombres_zero s l (d - 200) x0) in Hnb.
      - rewrite (tranche_app l x0 d (x0 + 200)) by lia.
        rewrite nb_sombres_app. lia.
      - intros v Hv. apply (find_seq_min _ _ _ _ v Ex). lia. }
    destruct (decide (g <= x0)%nat) as [?|Hgx]; [lia|].
    pose proof (find_seq_min _ _ _ _ x0 Eg ltac:(lia)) as Hf.
    cbv beta in Hf. unfold min_gris in Hf. congruence.
  - exfalso. rewrite (nb_sombres_zero s l (d - 200) d) in Hnb; [lia|].
    intros v Hv. apply (find_none _ _ Ex). apply in_seq. lia.
Qed.

(** When the edges of the rectangle are found, each is a dark column of
    the band (under the threshold that the code computes), with more than
    160 dark columns among the 200 at its right for the left edge, at its
    left for the right edge; the left edge is the first such column and
    never column 0, the right edge is the last one. *)
Theorem trouver_bords_verticaux_rectangle_Some
    (projection_bande : Z -> Z -> list float) (x0 y_haut w0 h_rect : Z) (g d : nat) :
  let projection :=
    projection_bande (y_haut + h_rect / 2 - h_rect / 4 / 2)
                     (y_haut + h_rect / 2 + h_rect / 4 / 2) in
  let sombre := fun v : nat =>
    PrimFloat.ltb (nth v projection 0%float) (seuil_gris projection) = true in
  let nb := fun debut fin : nat =>
              nb_sombres (seuil_gris projection) (tranche projection debut fin) in
  trouver_bords_verticaux_rectangle projection_bande (Some (x0, y_haut, w0, h_rect))
  = Some (g, d) ->
  (0 < g)%nat /\ (g + 200 < length projection)%nat
  /\ (200 < d < length projection)%nat /\ (g < d)%nat
  /\ sombre g /\ (160 < nb g (g + 200))%nat
  /\ sombre d /\ (160 < nb (d - 200) d)%nat
  /\ (forall v, (v < g)%nat -> ~ (sombre v /\ (160 < nb v (v + 200))%nat))
  /\ (forall v, (d < v < length projection)%nat ->
        ~ (sombre v /\ (160 < nb (v - 200) v)%nat)).
Proof.
  intros projection sombre nb. unfold trouver_bords_verticaux_rectangle.
  fold projection.
  assert (Hz : forall v debut fin,
            zone_grise (seuil_gris projection) projection v debut fin = true
            <-> sombre v /\ (160 < nb debut fin)%nat).
  { intros v debut fin. unfold zone_grise, sombre, nb.
    by rewrite andb_true_iff, plus_de_80_pourcent. }
  destruct (chercher_bord_gauche_rectangle projection) as [g'|] eqn:Eg; [|done].
  destruct (chercher_bord_droit_rectangle projection) as [d'|] eqn:Ed;
    [|by rewrite andb_false_r].
  destruct (vrai (Some g') && vrai (Some d')) eqn:Ev; [|done].
  intros [= -> ->]. apply andb_true_iff in Ev as [Hg _].
  simpl in Hg. apply negb_true_iff, Nat.eqb_neq in Hg.
  unfold chercher_bord_gauche_rectangle in Eg.
  unfold chercher_bord_droit_rectangle in Ed. unfold min_gris in Eg, Ed.
  pose proof (find_some _ _ Eg) as [Hing Hfg]. apply in_seq in Hing.
  pose proof (find_some _ _ Ed) as [Hind Hfd]. apply in_rev, in_seq in Hind.
  assert (Hgd : (g < d)%nat)
    by (apply (zone_grise_ordre _ _ _ _ Eg Hfd); unfold min_gris; lia).
  apply Hz in Hfg as [? ?]. apply Hz in Hfd as [? ?].
  split_and!; [lia|lia|lia|lia|done|done|done|done|done| |].
  - intros v Hv Hzone%Hz.
    pose proof (find_seq_min _ _ _ _ v Eg ltac:(lia)) as Hf.
    cbv beta in Hf. congruence.
  - intros v Hv Hzone%Hz.
    pose proof (find_rev_seq_max _ _ _ _ v Ed Hzone). lia.
Qed.

Lemma trouver_bords_verticaux_rectangle_Some_witness :
  (0 < 20)%nat
  /\ (20 + 200 < length (repeat 255%float 20 ++ repeat 100%float 410 ++ repeat 255%float 20))%nat
  /\ (200 < 429 < length (repeat 255%float 20 ++ repeat 100%float 410 ++ repeat 255%float 20))%nat.
Proof.
  pose proof (trouver_bords_verticaux_rectangle_Some
                (fun _ _ => repeat 255%float 20 ++ repeat 100%float 410 ++ repeat 255%float 20)
                0 500 800 250 20 429) as H.
  cbv zeta in H.
  assert (E : trouver_bords_verticaux_rectangle
                (fun _ _ => repeat 255%float 20 ++ repeat 100%float 410 ++ repeat 255%float 20)
                (Some (0, 500, 800, 250)) = Some (20, 429)%nat)
    by (vm_compute; reflexivity).
  specialize (H E). destruct H as (H1 & H2 & H3 & _).
  split; [exact H1|split; [exact H2|exact H3]].
Defined.

(** Where rounding decides.  Column 20 of this band holds the binary64
    value of 7906/62, the median of the columns is the binary64 value of
    2/62: the column lies under half the exact sum of the median and 255,
    and not under the threshold of the code, whose sum is rounded.  The
    code finds column 20 light, and the left edge is column 21. *)
Lemma trouver_bords_verticaux_rectangle_arrondi :
  trouver_bords_verticaux_rectangle
    (fun _ _ => repeat 255%float 20 ++ [(7906 / 62)%float]
                ++ repeat (2 / 62)%float 410 ++ repeat 255%float 20)
    (Some (0, 500, 800, 250))
  = Some (21, 430)%nat.
Proof. by vm_compute. Qed.

Lemma trouver_bords_verticaux_rectangle_positifs
    (projection_bande : Z -> Z -> list float) (rect : option (Z * Z * Z * Z)) (g d : nat) :
  trouver_bords_verticaux_rectangle projection_bande rect = Some (g, d) ->
  (0 < g)%nat /\ (200 < d)%nat /\ (g < d)%nat.
Proof.
  unfold trouver_bords_verticaux_rectangle.
  destruct rect as [[[[x0 y_haut] w0] h_rect]|]; [|done].
  destruct (chercher_bord_gauche_rectangle _) as [g'|] eqn:Eg; [|done].
  destruct (chercher_bord_droit_rectangle _) as [d'|] eqn:Ed;
    [|by rewrite andb_false_r].
  destruct (vrai (Some g') && vrai (Some d')) eqn:Ev; [|done].
  intros [= -> ->]. apply andb_true_iff in Ev as [Hg _].
  simpl in Hg. apply negb_true_iff, Nat.eqb_neq in Hg.
  unfold chercher_bord_gauche_rectangle in Eg.
  unfold chercher_bord_droit_rectangle in Ed.
  pose proof (find_some _ _ Ed) as [Hind Hfd]. apply in_rev, in_seq in Hind.
  pose proof (zone_grise_ordre _ _ _ _ Eg Hfd ltac:(lia)).
  unfold min_gris in Hind. lia.
Qed.

Lemma trouver_ligne_echelle_dans_page (binary : list (list bool)) (w : nat)
    (x1 y x2 y' : nat) :
  trouver_ligne_echelle binary w = Some (x1, y, x2, y') -> (y < length binary)%nat.
Proof.
  unfold trouver_ligne_echelle.
  destruct (ligne_boucle_inv binary w (length binary))
    as (best & max_len & -> & _ & Hbest).
  simpl. intros ->. by destruct Hbest as (_ & ? & _).
Qed.

(** When the six landmarks are found: the two points of the scale lie on
    one row of the page, the left one not at column 0 and at least 20
    columns before the right one; the four points of the rectangle are the
    corners of an upright rectangle at least 200 rows high that starts in
    the lower half of the page, its left edge not at column 0 and before
    its right edge; and the seven entries kept for debugging repeat the
    coordinates of the points. *)
Theorem detecter_reperes_Some (scan : Scan) (r : Reperes) :
  detecter_reperes scan = Some r ->
  (echelle_gauche r = (echelle_x_gauche r, ligne_echelle_y r)
   /\ echelle_droite r = (echelle_x_droite r, ligne_echelle_y r)
   /\ 0 <= ligne_echelle_y r < Z.of_nat (length (binaire_echelle scan))
   /\ 0 < echelle_x_gauche r
   /\ echelle_x_gauche r + 20 <= echelle_x_droite r)
  /\ (rect_haut_gauche r = (rect_x_gauche r, rect_y_haut r)
      /\ rect_haut_droite r = (rect_x_droite r, rect_y_haut r)
      /\ rect_bas_gauche r = (rect_x_gauche r, rect_y_bas r)
      /\ rect_bas_droite r = (rect_x_droite r, rect_y_bas r)
      /\ rect_y_haut r + 200 <= rect_y_bas r
      /\ int_Q (inject_Z (fst (forme scan)) * 0.5) <= rect_y_haut r
      /\ 0 < rect_x_gauche r /\ rect_x_gauche r < rect_x_droite r).
Proof.
  unfold detecter_reperes.
  destruct (trouver_ligne_echelle _ _) as [[[[x1 yl] x2] yl']|] eqn:El; [|done].
  destruct (trouver_bords_ligne_echelle _) as [[xg xd]|] eqn:Eb; [|done].
  destruct (trouver_rectangle_gris _ _ _) as [[[[rx ry] rw] rh]|] eqn:Er; [|done].
  destruct (trouver_bords_verticaux_rectangle _ _) as [[g d]|] eqn:Ev; [|done].
  intros [= <-]. simpl.
  apply trouver_ligne_echelle_dans_page in El.
  apply trouver_bords_ligne_echelle_largeur in Eb as [? ?]. unfold largeur_min in *.
  apply trouver_rectangle_gris_inv in Er
    as (debut & fin & _ & _ & [= -> -> -> ->] & ? & _).
  apply trouver_bords_verticaux_rectangle_positifs in Ev as (? & ? & ?).
  split; split_and!; try done; lia.
Qed.

Lemma detecter_reperes_Some_witness :
  (echelle_gauche reperes_exemple
   = (echelle_x_gauche reperes_exemple, ligne_echelle_y reperes_exemple)
   /\ echelle_droite reperes_exemple
      = (echelle_x_droite reperes_exemple, ligne_echelle_y reperes_exemple)
   /\ 0 <= ligne_echelle_y reperes_exemple
      < Z.of_nat (length (binaire_echelle scan_exemple))
   /\ 0 < echelle_x_gauche reperes_exemple
   /\ echelle_x_gauche reperes_exemple + 20 <= echelle_x_droite reperes_exemple)
  /\ (rect_haut_gauche reperes_exemple
      = (rect_x_gauche reperes_exemple, rect_y_haut reperes_exemple)
      /\ rect_haut_droite reperes_exemple
         = (rect_x_droite reperes_exemple, rect_y_haut reperes_exemple)
      /\ rect_bas_gauche reperes_exemple
         = (rect_x_gauche reperes_exemple, rect_y_bas reperes_exemple)
      /\ rect_bas_droite reperes_exemple
         = (rect_x_droite reperes_exemple, rect_y_bas reperes_exemple)
      /\ rect_y_haut reperes_exemple + 200 <= rect_y_bas reperes_exemple
      /\ int_Q (inject_Z (fst (forme scan_exemple)) * 0.5) <= rect_y_haut reperes_exemple
      /\ 0 < rect_x_gauche reperes_exemple
      /\ rect_x_gauche reperes_exemple < rect_x_droite reperes_exemple).
Proof.
  apply (detecter_reperes_Some scan_exemple reperes_exemple).
  vm_compute. reflexivity.
Defined.

(** ** Matching, further *)











(** ** The questions of a page, further *)

Lemma questions_boucle_origine lignes_vides (contenu : gmap string Question) dx
    (l : list nat) (acc : gmap string QuestionJson) (cle : string) (qj : QuestionJson) :
  fold_left (analyser_question lignes_vides contenu dx) l acc !! cle = Some qj ->
  acc !! cle = Some qj
  \/ exists n question,
       n ∈ l /\ cle = q_id n /\ contenu !! cle = Some question
       /\ length (reponses qj) = length (cases question).
Proof.
  revert acc. induction l as [|a l IH]; intros acc; simpl; [by left|].
  intros [H|(n & q & Hn & -> & Hq & Hlen)]%IH.
  - unfold analyser_question in H.
    destruct (contenu !! q_id a) as [q|] eqn:Eq; [|by left].
    destruct (decide (q_id a = cle)) as [<-|Hne].
    + rewrite lookup_insert_eq in H. injection H as <-.
      right. exists a, q. split; [apply list_elem_of_here|].
      split; [done|]. split; [done|]. simpl. apply reponses_question_spec.
    + rewrite lookup_insert_ne in H by done. by left.
  - right. exists n, q. split; [by apply list_elem_of_further|done].
Qed.

(** The record of a page holds an entry only under [question_n] for a
    number [n] from 1 to the number of rows of empty boxes (and to the
    number of questions of the template), and only when the template has
    that question; the entry has one answer per expected box.  A question
    whose number exceeds the number of rows gets no entry at all. *)
Theorem analyser_questions_cles (lignes_vides : list (list Case))
    (contenu : gmap string Question) (dx : Z) :
  (forall cle qj,
     analyser_questions lignes_vides contenu dx !! cle = Some qj ->
     exists n question,
       cle = q_id n
       /\ (1 <= n <= length lignes_vides)%nat /\ (n <= size contenu)%nat
       /\ contenu !! cle = Some question
       /\ length (reponses qj) = length (cases question))
  /\ (forall n, (length lignes_vides < n)%nat ->
        analyser_questions lignes_vides contenu dx !! q_id n = None)
  /\ dom (analyser_questions lignes_vides contenu dx) ⊆ dom contenu.
Proof.
  assert (H : forall cle qj,
            analyser_questions lignes_vides contenu dx !! cle = Some qj ->
            exists n question,
              cle = q_id n
              /\ (1 <= n <= length lignes_vides)%nat /\ (n <= size contenu)%nat
              /\ contenu !! cle = Some question
              /\ length (reponses qj) = length (cases question)).
  { intros cle qj Hq. unfold analyser_questions in Hq.
    apply questions_boucle_origine in Hq as [Hq|(n & q & Hn & -> & Hc & Hlen)];
      [by rewrite lookup_empty in Hq|].
    apply elem_of_seq in Hn. exists n, q. split_and!; [done|lia|lia|lia|done|done]. }
  split; [done|]. split.
  - intros n Hn.
    destruct (analyser_questions lignes_vides contenu dx !! q_id n) as [qj|] eqn:E;
      [|done].
    destruct (H _ _ E) as (m & q & Hm%q_id_inj & ? & _). lia.
  - intros cle [qj Hq]%elem_of_dom.
    destruct (H _ _ Hq) as (n & q & _ & _ & _ & Hc & _).
    apply elem_of_dom. by exists q.
Qed.

Lemma analyser_questions_cles_witness :
  exists n question,
    "question_1" = q_id n
    /\ (1 <= n <= 1)%nat /\ (n <= size (contenu template_exemple))%nat
    /\ contenu template_exemple !! "question_1" = Some question.
Proof.
  destruct (proj1 (analyser_questions_cles
                     [[Build_Case 114 1000 40 40 1521]]
                     (contenu template_exemple) 14)
                  "question_1"
                  {| reponses :=
                       reponses_question [Build_Case 114 1000 40 40 1521]
                                         (cases question_exemple) 14 |})
    as (n & q & Hn & Hr & Hs & Hc & _).
  - vm_compute. reflexivity.
  - exists n, q. split; [exact Hn|]. split; [exact Hr|]. split; [exact Hs|exact Hc].
Defined.

(** ** The two classifiers *)

(** The classifier in use and the earlier one agree on the boxes filled
    by density and fail on the same boxes; where the one in use reports
    strokes the earlier one does too, with at least as many; where the
    earlier one finds a box empty, so does the one in use. *)
Theorem analyser_case_Xanalyser_case (image : Image) (case : Case) :
  (forall err, analyser_case image case = Leve err
               <-> Xanalyser_case image case = Leve err)
  /\ (forall q, analyser_case image case = Ok (noire q)
                <-> Xanalyser_case image case = Ok (noire q))
  /\ (forall n, analyser_case image case = Ok (traits n) ->
        exists m, (n <= m)%nat /\ Xanalyser_case image case = Ok (traits m))
  /\ (Xanalyser_case image case = Ok vide -> analyser_case image case = Ok vide).
Proof.
  unfold analyser_case, Xanalyser_case.
  destruct (zone_interieure case) as [[[x_int y_int] w_int] h_int].
  destruct (w_int * h_int =? 0); [by split_and!|].
  destruct (Qlt_bool SEUIL_REMPLISSAGE _); [by split_and!|].
  set (comps := aires_composantes (interieur image x_int y_int w_int h_int)).
  set (f := fun area : Z => Qlt_bool (inject_Z (w_int * h_int) * 0.1) (inject_Z area)).
  assert (Hle : (length (List.filter f comps) <= length comps)%nat)
    by apply filter_length_le.
  unfold MIN_COMPOSANTES.
  destruct (Nat.leb_spec 1 (length (List.filter f comps))) as [H1|H1];
    destruct (Nat.leb_spec 1 (length comps)) as [H2|H2]; try lia.
  - split_and!; try done. intros n [= <-]. by eexists.
  - by split_and!.
  - by split_and!.
Qed.

(** ** The band under the scale *)

(** For a scale that lies in the page, the scoring raises exactly when the
    scale is in the last 40 rows of the page: 20 rows are wiped under the
    line, the band starts 20 rows lower, and the crop stops at the bottom
    edge.  Higher up, the scoring returns its scores. *)
Theorem coter_echelle_bande_vide (image : Image) (e : Echelle) :
  0 <= pt_x (gauche e) < pt_x (droite e) -> pt_x (droite e) < largeur image ->
  0 <= pt_y (gauche e) < hauteur image ->
  (coter_echelle image (Some e) = Leve Cv2Error
   <-> hauteur image <= pt_y (gauche e) + 40)
  /\ ((exists scores, coter_echelle image (Some e) = Ok scores)
      <-> pt_y (gauche e) + 40 < hauteur image).
Proof.
  intros Hx Hw Hy.
  destruct (Z.le_gt_cases (hauteur image) (pt_y (gauche e) + 40)) as [Hbas|Hhaut].
  - pose proof (coter_echelle_bas_de_page image e Hx Hw Hy Hbas) as E.
    rewrite E. split; [done|]. split; [by intros [scores ?]|lia].
  - destruct (coter_echelle_lisible image e) as [scores E].
    { unfold echelle_lisible. lia. }
    rewrite E. split; [split; [done|lia]|]. split; [lia|by exists scores].
Qed.

Lemma coter_echelle_bande_vide_witness :
  (coter_echelle page_coupee
     (Some {| gauche := {| pt_x := 14; pt_y := 900 |};
              droite := {| pt_x := 106; pt_y := 900 |} |}) = Leve Cv2Error
   <-> hauteur page_coupee <= 900 + 40)
  /\ ((exists scores,
         coter_echelle page_coupee
           (Some {| gauche := {| pt_x := 14; pt_y := 900 |};
                    droite := {| pt_x := 106; pt_y := 900 |} |}) = Ok scores)
      <-> 900 + 40 < hauteur page_coupee).
Proof.
  apply (coter_echelle_bande_vide page_coupee
           {| gauche := {| pt_x := 14; pt_y := 900 |};
              droite := {| pt_x := 106; pt_y := 900 |} |}).
  - simpl. lia.
  - simpl. lia.
  - simpl. lia.
Defined.

(** ** Merging the records with the titles *)

(** In a batch in which every scale that is found can be scored, a page
    whose scale is not found goes through the loop over the pages and
    through the merge without stopping either: the merged output has one
    page per scanned page, and that page appears in it under its number,
    with no global score and no question. *)
Theorem fusionner_resultats_sans_echelle (template_page : TemplatePage)
    (contenu_titres : gmap string QuestionTitree) (pages : list Image)
    (i : nat) (image : Image) :
  (forall j image' e,
     pages !! j = Some image' -> detecter_echelle_seule image' = Some e ->
     echelle_lisible image' e) ->
  pages !! i = Some image ->
  detecter_echelle_seule image = None ->
  exists resultats,
    main_pages template_page pages = Ok resultats
    /\ length (fusionner_resultats contenu_titres resultats) = length pages
    /\ fusionner_resultats contenu_titres resultats !! i
       = Some {| pf_page := S i; pf_globale := None; pf_questions := ∅ |}.
Proof.
  intros Hlisible Hi He.
  destruct (main_pages_lookup template_page pages Hlisible)
    as (resultats & Hm & Hlen & Hl).
  exists resultats. split; [done|]. unfold fusionner_resultats.
  split; [by rewrite length_map|].
  destruct (Hl i image Hi) as (record & Hr & Hrec).
  unfold analyser_page in Hrec. rewrite He in Hrec. injection Hrec as <-.
  change (map ?f ?l) with (f <$> l). rewrite list_lookup_fmap, Hr. simpl.
  unfold fusionner_page. simpl. done.
Qed.

Lemma fusionner_resultats_sans_echelle_witness :
  exists resultats,
    main_pages template_exemple [page_exemple; page_sans_echelle] = Ok resultats
    /\ length (fusionner_resultats ∅ resultats) = 2%nat
    /\ fusionner_resultats ∅ resultats !! 1%nat
       = Some {| pf_page := 2; pf_globale := None; pf_questions := ∅ |}.
Proof.
  apply (fusionner_resultats_sans_echelle template_exemple ∅
           [page_exemple; page_sans_echelle] 1 page_sans_echelle).
  - intros [|[|j]] image e Hj He; simpl in Hj.
    + injection Hj as <-. vm_compute in He. injection He as <-.
      unfold echelle_lisible. simpl. lia.
    + injection Hj as <-. vm_compute in He. discriminate He.
    + discriminate Hj.
  - reflexivity.
  - reflexivity.
Defined.

(** The scores of a scale lie between 0 and 5. *)
Lemma coter_echelle_bornes (image : Image) (echelle : option Echelle)
    (scores : list nat) :
  coter_echelle image echelle = Ok scores -> Forall (fun s => (s < 6)%nat) scores.
Proof.
  destruct echelle as [e|]; [|intros [= <-]; constructor].
  intros ->%coter_echelle_scores.
  apply Forall_forall. intros s.
  rewrite sorted_Permutation, scores_detectes_elem, elem_of_nil.
  intros [[]|(b & _ & <-)]. apply score_proche_spec.
Qed.

Lemma somme_bornee (l : list nat) :
  Forall (fun s => (s < 6)%nat) l ->
  (fold_right Nat.add 0 l <= 5 * length l)%nat.
Proof.
  induction 1 as [|s l Hs Hl IH]; simpl; lia.
Qed.

(** The global score of a merged page is the mean of the scores of the
    scale; it is missing exactly when the page has no score, and for a
    page that the analysis produced it lies between 0 and 5. *)
Theorem fusionner_page_globale (contenu_titres : gmap string QuestionTitree)
    (image : Image) (page_num : nat) (template_page : TemplatePage)
    (record : PageData) :
  analyser_page image page_num template_page = Ok record ->
  pf_page (fusionner_page contenu_titres record) = page_num
  /\ (pf_globale (fusionner_page contenu_titres record) = None
      <-> score_echelle_de record = [])
  /\ (forall g, pf_globale (fusionner_page contenu_titres record) = Some g ->
        (0 <= g <= 5)%Q
        /\ (g * inject_Z (Z.of_nat (length (score_echelle_de record)))
            == inject_Z (Z.of_nat (fold_right Nat.add 0%nat (score_echelle_de record))))%Q).
Proof.
  intros Hrec.
  assert (Hscores : page_de record = page_num
                    /\ Forall (fun s => (s < 6)%nat) (score_echelle_de record)).
  { unfold analyser_page in Hrec.
    destruct (detecter_echelle_seule image) as [e|].
    - destruct (coter_echelle image (Some e)) as [scores|err] eqn:Es;
        simpl in Hrec; [|done].
      destruct (cases_vides_de image) as [cv|err]; simpl in Hrec; [|done].
      injection Hrec as <-. split; [done|].
      apply (coter_echelle_bornes image (Some e) scores Es).
    - injection Hrec as <-. simpl. split; [done|constructor]. }
  destruct Hscores as [Hpage Hscores].
  unfold fusionner_page. simpl. split; [done|].
  destruct (score_echelle_de record) as [|s l] eqn:E; simpl; [by split_and!|].
  split; [by split|]. intros g [= <-].
  apply somme_bornee in Hscores.
  change (s + fold_right Nat.add 0%nat l)%nat
    with (fold_right Nat.add 0%nat (s :: l)).
  change (S (length l)) with (length (s :: l)).
  assert (Hn : (0 < length (s :: l))%nat) by (simpl; lia).
  set (total := fold_right Nat.add 0%nat (s :: l)) in *.
  set (n := length (s :: l)) in *.
  clearbody total n. split.
  - unfold Qle, Qdiv, Qmult, Qinv. simpl.
    destruct (Z.of_nat n) as [|p|p] eqn:Ep; try lia. simpl. lia.
  - field. intros Hz. assert (Z.of_nat n = 0); [|lia].
    unfold Qeq in Hz. simpl in Hz. lia.
Qed.

Lemma fusionner_page_globale_witness :
  pf_page (fusionner_page ∅
             (PageResultat 1 14 []
                (analyser_questions
                   (regrouper_par_lignes
                      [Build_Case 114 1000 40 40 1521; Build_Case 714 1001 40 40 1521;
                       Build_Case 514 1002 40 40 1521] 50)
                   (contenu template_exemple) 14))) = 1%nat.
Proof.
  apply (fusionner_page_globale ∅ page_exemple 1 template_exemple).
  vm_compute. reflexivity.
Defined.

(** A merged page holds a question exactly when the record has it and the
    template knows it.  Its answers are those of the record, one for one
    and in the same order; the flag of an answer is 1 when the record says
    'cochée' and 0 when it says 'vide'; its title is the title the template
    gives to the box of that index, when it gives one. *)
Theorem fusionner_page_questions (contenu_titres : gmap string QuestionTitree)
    (page_result : PageData) (cle : string) :
  (is_Some (pf_questions (fusionner_page contenu_titres page_result) !! cle)
   <-> is_Some (questions_de page_result !! cle) /\ is_Some (contenu_titres !! cle))
  /\ (forall qf q_result template_question,
        pf_questions (fusionner_page contenu_titres page_result) !! cle = Some qf ->
        questions_de page_result !! cle = Some q_result ->
        contenu_titres !! cle = Some template_question ->
        length (qf_reponses qf) = length (reponses q_result)
        /\ forall i r,
             reponses q_result !! i = Some r ->
             exists rf,
               qf_reponses qf !! i = Some rf
               /\ (rf_cochee rf = 1%nat <-> reponse r = cochee)
               /\ (rf_cochee rf = 0%nat <-> reponse r = vide_)
               /\ (forall case_template titre,
                     question_cases template_question !! index r = Some case_template ->
                     case_titre case_template = Some titre ->
                     rf_titre rf = titre)).
Proof.
  unfold fusionner_page. simpl. rewrite map_lookup_imap. split.
  - destruct (questions_de page_result !! cle) as [q_result|]; simpl.
    + unfold fusionner_question.
      destruct (contenu_titres !! cle) as [tq|]; simpl.
      * split; [intros _; split; by eexists|by eexists].
      * split; [by intros [? ?]|by intros [_ [? ?]]].
    + split; [by intros [? ?]|by intros [[? ?] _]].
  - intros qf q_result tq Hqf Hq Ht. rewrite Hq in Hqf. simpl in Hqf.
    unfold fusionner_question in Hqf. rewrite Ht in Hqf. injection Hqf as <-.
    simpl. split; [apply length_map|].
    intros i r Hr. change (map ?f ?l) with (f <$> l).
    rewrite list_lookup_fmap, Hr. simpl. eexists. split; [done|].
    unfold fusionner_reponse. simpl. split_and!.
    + by destruct (reponse r).
    + by destruct (reponse r).
    + intros ct titre Hct Htitre. unfold titre_case. by rewrite Hct, Htitre.
Qed.

Lemma fusionner_page_questions_witness :
  length (qf_reponses
            {| qf_titre := "Douleur";
               qf_reponses := [ {| rf_titre := "Oui"; rf_cochee := 1 |} ] |})
  = length [ {| index := 0; reponse := cochee;
                r_x := 100; r_y := 1000; r_w := 40; r_h := 40 |} ].
Proof.
  apply (proj2 (fusionner_page_questions
                  {[ "question_1" :=
                       {| question_titre := Some "Douleur";
                          question_cases := [ {| case_titre := Some "Oui" |} ] |} ]}
                  (PageResultat 1 0 []
                     {[ "question_1" :=
                          {| reponses :=
                               [ {| index := 0; reponse := cochee;
                                    r_x := 100; r_y := 1000; r_w := 40; r_h := 40 |} ] |} ]})
                  "question_1")
               {| qf_titre := "Douleur";
                  qf_reponses := [ {| rf_titre := "Oui"; rf_cochee := 1 |} ] |}
               {| reponses :=
                    [ {| index := 0; reponse := cochee;
                         r_x := 100; r_y := 1000; r_w := 40; r_h := 40 |} ] |}
               {| question_titre := Some "Douleur";
                  question_cases := [ {| case_titre := Some "Oui" |} ] |}).
  - vm_compute. reflexivity.
  - vm_compute. reflexivity.
  - vm_compute. reflexivity.
Defined.

(** ** The interior of a box *)

(** The interior that is classified lies inside the box, leaves the same
    margin on its two sides, a quarter of the side rounded down, and keeps
    at least half of each side: a box less than 4 pixels wide is read
    whole, border included. *)
Theorem zone_interieure_marges (case : Case) :
  0 < w case -> 0 < h case ->
  let '(x_int, y_int, w_int, h_int) := zone_interieure case in
  (x_int - x case = w case / 4 /\ x case + w case - (x_int + w_int) = w case / 4
   /\ w case <= 2 * w_int <= w case + 3)
  /\ (y_int - y case = h case / 4 /\ y case + h case - (y_int + h_int) = h case / 4
      /\ h case <= 2 * h_int <= h case + 3)
  /\ (w case < 4 -> x_int = x case /\ w_int = w case).
Proof.
  intros Hw Hh. unfold zone_interieure.
  assert (Hm : forall v, 0 < v -> int_Q (inject_Z v * 0.25) = v / 4).
  { intros v Hv. unfold int_Q. simpl. rewrite Z.quot_div_nonneg by lia.
    Z.to_euclidean_division_equations. lia. }
  rewrite !Hm by done.
  split_and!; try lia; Z.to_euclidean_division_equations; lia.
Qed.

Lemma zone_interieure_marges_witness :
  (10 - 0 = 40 / 4 /\ 0 + 40 - (10 + 20) = 40 / 4 /\ 40 <= 2 * 20 <= 40 + 3)
  /\ (10 - 0 = 40 / 4 /\ 0 + 40 - (10 + 20) = 40 / 4 /\ 40 <= 2 * 20 <= 40 + 3)
  /\ (40 < 4 -> 10 = 0 /\ 20 = 40).
Proof.
  apply (zone_interieure_marges (Build_Case 0 0 40 40 1600)); reflexivity.
Defined.

Lemma analyser_case_Xanalyser_case_witness :
  exists m,
    (1 <= m)%nat
    /\ Xanalyser_case
         (Build_Image 1200 800 None (fun _ => []) (fun _ _ => false) (fun _ => []) []
                      (fun _ _ _ _ => Build_Interieur 100 [150; 3]))
         (Build_Case 0 0 40 40 1600) = Ok (traits m).
Proof.
  destruct (analyser_case_Xanalyser_case
              (Build_Image 1200 800 None (fun _ => []) (fun _ _ => false) (fun _ => []) []
                           (fun _ _ _ _ => Build_Interieur 100 [150; 3]))
              (Build_Case 0 0 40 40 1600)) as (_ & _ & H & _).
  apply (H 1%nat). vm_compute. reflexivity.
Defined.
